(** * A verification model of the DataTable component (src/unnamed/part_000)

    The component is a React function component.  Its logic is embedded here
    as pure functions over explicit state:
    - strings are ASCII byte strings ([String.string]); JavaScript's
      [trim], [toLowerCase], [\s] and [\d] are taken on their ASCII part;
    - JavaScript numbers are [jsnum]: an exact rational, the two infinities
      or NaN.  Decimal literals keep their exact value (rounding to binary64
      is not modelled; -0 is identified with 0, which no code path here
      distinguishes);
    - a JavaScript object built by the component (a table row) is an
      association list of its own properties in the order JavaScript lists
      them, with the semantics of property assignment ([obj_set]) and of
      property reads through [Object.prototype] ([obj_get]);
    - the React state of the component is the record [ui_state]. *)

From Stdlib Require Import String Ascii ZArith QArith Qround Lia Sorted.
From stdpp Require Import base list.

Open Scope string_scope.

(* ------------------------------------------------------------------ *)
(** ** String primitives of the JavaScript runtime *)

Definition dquote : ascii := ascii_of_nat 34.
Definition newline : ascii := ascii_of_nat 10.

(** [WhiteSpace] and [LineTerminator], ASCII part: TAB LF VT FF CR SP. *)
Definition is_ws (c : ascii) : bool :=
  match nat_of_ascii c with
  | 9 | 10 | 11 | 12 | 13 | 32 => true
  | _ => false
  end.

Definition is_digit (c : ascii) : bool :=
  (48 <=? nat_of_ascii c)%nat && (nat_of_ascii c <=? 57)%nat.

Fixpoint ltrim (s : string) : string :=
  match s with
  | EmptyString => EmptyString
  | String c r => if is_ws c then ltrim r else s
  end.

Fixpoint drop_ws (l : list ascii) : list ascii :=
  match l with
  | [] => []
  | c :: r => if is_ws c then drop_ws r else l
  end.

Definition rtrim (s : string) : string :=
  string_of_list_ascii (rev (drop_ws (rev (list_ascii_of_string s)))).

(** [String.prototype.trim] *)
Definition trim (s : string) : string := rtrim (ltrim s).

(** [s.split(sep)] for a one-character separator. *)
Fixpoint split_on (sep : ascii) (s : string) : list string :=
  match s with
  | EmptyString => [EmptyString]
  | String c r =>
      if Ascii.eqb c sep then EmptyString :: split_on sep r
      else match split_on sep r with
           | x :: xs => String c x :: xs
           | [] => [String c EmptyString]
           end
  end.

(** [s.replace(/c/g, empty)]: every occurrence removed. *)
Fixpoint remove_char (c : ascii) (s : string) : string :=
  match s with
  | EmptyString => EmptyString
  | String d r => if Ascii.eqb d c then remove_char c r else String d (remove_char c r)
  end.

(** [s.replace(c, empty)]: only the first occurrence removed. *)
Fixpoint replace_first (c : ascii) (s : string) : string :=
  match s with
  | EmptyString => EmptyString
  | String d r => if Ascii.eqb d c then r else String d (replace_first c r)
  end.

Definition lower_char (c : ascii) : ascii :=
  let n := nat_of_ascii c in
  if (65 <=? n)%nat && (n <=? 90)%nat then ascii_of_nat (n + 32) else c.

(** [s.toLowerCase()] *)
Fixpoint to_lower (s : string) : string :=
  match s with
  | EmptyString => EmptyString
  | String c r => String (lower_char c) (to_lower r)
  end.

(** [s.replace(/\s+/g, underscore)]; [in_run] records that the previous character
    was white space already replaced. *)
Fixpoint ws_runs (in_run : bool) (s : string) : string :=
  match s with
  | EmptyString => EmptyString
  | String c r =>
      if is_ws c then (if in_run then ws_runs true r else String "_" (ws_runs true r))
      else String c (ws_runs false r)
  end.

Definition ws_to_underscore (s : string) : string := ws_runs false s.

(** [s.includes(pat)] *)
Fixpoint includes (s pat : string) : bool :=
  String.prefix pat s ||
  match s with
  | EmptyString => false
  | String _ r => includes r pat
  end.

(** Number of leading ASCII digits, and the rest. *)
Fixpoint span_digits (s : string) : list nat * string :=
  match s with
  | String c r =>
      if is_digit c then let '(ds, rest) := span_digits r in ((nat_of_ascii c - 48)%nat :: ds, rest)
      else ([], s)
  | EmptyString => ([], s)
  end.

Definition starts_with_char (c : ascii) (s : string) : bool :=
  match s with String d _ => Ascii.eqb d c | EmptyString => false end.

Definition tail_str (s : string) : string :=
  match s with String _ r => r | EmptyString => EmptyString end.

(** [/^\d{4}-\d{2}-\d{2}$/] *)
Definition match_iso_date (s : string) : bool :=
  let '(a, r1) := span_digits s in
  (length a =? 4)%nat && starts_with_char "-" r1 &&
  let '(b, r2) := span_digits (tail_str r1) in
  (length b =? 2)%nat && starts_with_char "-" r2 &&
  let '(c, r3) := span_digits (tail_str r2) in
  (length c =? 2)%nat && (r3 =? EmptyString).

(** [/^\d{1,2}\/\d{1,2}\/\d{4}$/] *)
Definition match_us_date (s : string) : bool :=
  let '(a, r1) := span_digits s in
  (1 <=? length a)%nat && (length a <=? 2)%nat && starts_with_char "/" r1 &&
  let '(b, r2) := span_digits (tail_str r1) in
  (1 <=? length b)%nat && (length b <=? 2)%nat && starts_with_char "/" r2 &&
  let '(c, r3) := span_digits (tail_str r2) in
  (length c =? 4)%nat && (r3 =? EmptyString).

(** [/^\d+\.\d{2}$/] *)
Definition match_money (s : string) : bool :=
  let '(a, r1) := span_digits s in
  (1 <=? length a)%nat && starts_with_char "." r1 &&
  let '(c, r2) := span_digits (tail_str r1) in
  (length c =? 2)%nat && (r2 =? EmptyString).

(* ------------------------------------------------------------------ *)
(** ** JavaScript numbers *)

Inductive jsnum : Type :=
| Fin (q : Q)
| PosInf
| NegInf
| NaN.

Definition js_neg (n : jsnum) : jsnum :=
  match n with
  | Fin q => Fin (Qred (- q))
  | PosInf => NegInf
  | NegInf => PosInf
  | NaN => NaN
  end.

Definition is_nan (n : jsnum) : bool := match n with NaN => true | _ => false end.

Definition digits_to_Z (ds : list nat) : Z :=
  fold_left (fun acc d => acc * 10 + Z.of_nat d)%Z ds 0%Z.

(** Exact value of the decimal digits [d1.d2] times [10^e]. *)
Definition dec_value (d1 d2 : list nat) (e : Z) : Q :=
  let m := digits_to_Z (d1 ++ d2) in
  let k := (e - Z.of_nat (length d2))%Z in
  Qred (if (0 <=? k)%Z then inject_Z (m * 10 ^ k) else Qmake m (Z.to_pos (10 ^ (- k)))).

(** Longest [ExponentPart] prefix: its value and the rest ([0] and the
    input itself when there is none). *)
Definition exponent_prefix (s : string) : Z * string :=
  match s with
  | String c r =>
      if Ascii.eqb c "e" || Ascii.eqb c "E" then
        let '(sg, r') :=
          match r with
          | String "+" r'' => (1%Z, r'')
          | String "-" r'' => ((-1)%Z, r'')
          | _ => (1%Z, r)
          end in
        let '(ds, r3) := span_digits r' in
        match ds with
        | [] => (0%Z, s)
        | _ => ((sg * digits_to_Z ds)%Z, r3)
        end
      else (0%Z, s)
  | EmptyString => (0%Z, s)
  end.

(** Longest prefix of [s] that is a [StrUnsignedDecimalLiteral]. *)
Definition unsigned_prefix (s : string) : option (jsnum * string) :=
  if String.prefix "Infinity" s then Some (PosInf, substring 8 (String.length s - 8) s)
  else
    let '(d1, r1) := span_digits s in
    let '(d2, r2) :=
      match r1 with
      | String "." r => span_digits r
      | _ => ([], r1)
      end in
    match d1, d2 with
    | [], [] => None
    | _, _ => let '(e, r3) := exponent_prefix r2 in Some (Fin (dec_value d1 d2 e), r3)
    end.

(** Longest prefix of [s] that is a [StrDecimalLiteral]. *)
Definition decimal_prefix (s : string) : option (jsnum * string) :=
  match s with
  | String "+" r => unsigned_prefix r
  | String "-" r =>
      match unsigned_prefix r with
      | Some (n, rest) => Some (js_neg n, rest)
      | None => None
      end
  | _ => unsigned_prefix s
  end.

(** [parseFloat(s)] *)
Definition parse_float (s : string) : jsnum :=
  match decimal_prefix (ltrim s) with
  | Some (n, _) => n
  | None => NaN
  end.

Definition radix_digit (r : nat) (c : ascii) : option nat :=
  let n := nat_of_ascii c in
  let v := if (48 <=? n)%nat && (n <=? 57)%nat then Some (n - 48)%nat
           else if (97 <=? n)%nat && (n <=? 102)%nat then Some (n - 87)%nat
           else if (65 <=? n)%nat && (n <=? 70)%nat then Some (n - 55)%nat
           else None in
  match v with
  | Some d => if (d <? r)%nat then Some d else None
  | None => None
  end.

Fixpoint radix_value (r : nat) (acc : Z) (s : string) : option Z :=
  match s with
  | EmptyString => Some acc
  | String c rest =>
      match radix_digit r c with
      | Some d => radix_value r (acc * Z.of_nat r + Z.of_nat d)%Z rest
      | None => None
      end
  end.

(** [NonDecimalIntegerLiteral]: [0x..], [0o..], [0b..] (no sign). *)
Definition non_decimal_literal (s : string) : option Z :=
  match s with
  | String "0" (String c rest) =>
      let r := if Ascii.eqb c "x" || Ascii.eqb c "X" then 16%nat
               else if Ascii.eqb c "o" || Ascii.eqb c "O" then 8%nat
               else if Ascii.eqb c "b" || Ascii.eqb c "B" then 2%nat
               else 0%nat in
      match r, rest with
      | O, _ => None
      | _, EmptyString => None
      | _, _ => radix_value r 0 rest
      end
  | _ => None
  end.

(** [Number(s)], i.e. StringToNumber. *)
Definition to_number (s : string) : jsnum :=
  let t := trim s in
  if t =? EmptyString then Fin 0
  else match non_decimal_literal t with
       | Some z => Fin (inject_Z z)
       | None =>
           match decimal_prefix t with
           | Some (n, EmptyString) => n
           | _ => NaN
           end
       end.

(** *** [Number.prototype.toString()] *)

Definition digit_char (d : Z) : ascii := ascii_of_nat (48 + Z.to_nat d).

Fixpoint z_digits_aux (fuel : nat) (n : Z) (acc : string) : string :=
  match fuel with
  | O => acc
  | S f =>
      if (n <? 10)%Z then String (digit_char n) acc
      else z_digits_aux f (n / 10)%Z (String (digit_char (n mod 10)) acc)
  end.

(** Decimal digits of a non-negative integer. *)
Definition z_digits (n : Z) : string := z_digits_aux (S (Z.to_nat (Z.log2 n))) n EmptyString.

(** Removes trailing zeros of [m], lowering the scale [k] accordingly. *)
Fixpoint strip_zeros (fuel : nat) (m k : Z) : Z * Z :=
  match fuel with
  | O => (m, k)
  | S f => if ((m mod 10 =? 0) && (0 <? m))%Z then strip_zeros f (m / 10) (k - 1) else (m, k)
  end.

(** The least [k] such that [d] divides [10^k] (it exists for the
    denominators of decimal literals). *)
Fixpoint dec_scale (fuel : nat) (k : nat) (d : Z) : nat :=
  match fuel with
  | O => k
  | S f => if (10 ^ Z.of_nat k mod d =? 0)%Z then k else dec_scale f (S k) d
  end.

Fixpoint zeros (n : nat) : string :=
  match n with O => EmptyString | S n' => String "0" (zeros n') end.

Definition exp_text (e : Z) : string :=
  (if (0 <=? e)%Z then "+" else "-") ++ z_digits (Z.abs e).

(** Number::toString for a positive exact decimal [q]: the digits [ds] of
    the significand and the decimal point position [n] (value = 0.ds * 10^n). *)
Definition show_pos (q : Q) : string :=
  let d := Zpos (Qden q) in
  let k := dec_scale (S (Z.to_nat (Z.log2 d))) 0 d in
  let m := (Qnum q * 10 ^ Z.of_nat k / d)%Z in
  let '(s, k') := strip_zeros (S (Z.to_nat (Z.log2 m))) m (Z.of_nat k) in
  let ds := z_digits s in
  let len := Z.of_nat (String.length ds) in
  let n := (len - k')%Z in
  if ((len <=? n) && (n <=? 21))%Z then ds ++ zeros (Z.to_nat (n - len))
  else if ((0 <? n) && (n <=? 21))%Z then
    substring 0 (Z.to_nat n) ds ++ "." ++ substring (Z.to_nat n) (String.length ds) ds
  else if ((-6 <? n) && (n <=? 0))%Z then "0." ++ zeros (Z.to_nat (- n)) ++ ds
  else if (len =? 1)%Z then ds ++ "e" ++ exp_text (n - 1)
  else substring 0 1 ds ++ "." ++ substring 1 (String.length ds) ds ++ "e" ++ exp_text (n - 1).

Definition show_num (x : jsnum) : string :=
  match x with
  | NaN => "NaN"
  | PosInf => "Infinity"
  | NegInf => "-Infinity"
  | Fin q =>
      let q' := Qred q in
      if (Qnum q' =? 0)%Z then "0"
      else if (Qnum q' <? 0)%Z then "-" ++ show_pos (Qred (- q')) else show_pos q'
  end.

(* ------------------------------------------------------------------ *)
(** ** Data model of the component *)

(** The [type] strings of a column config. *)
Inductive col_type : Type := TString | TNumber | TDate | TCurrency.

(** The properties a row object inherits from [Object.prototype]: the
    prototype itself behind the [__proto__] accessor, and its methods. *)
Inductive proto_member : Type :=
| PConstructor | PDefineGetter | PDefineSetter | PHasOwnProperty
| PLookupGetter | PLookupSetter | PIsPrototypeOf | PPropertyIsEnumerable
| PToString | PValueOf | PProto | PToLocaleString.

Definition proto_member_name (m : proto_member) : string :=
  match m with
  | PConstructor => "constructor"
  | PDefineGetter => "__defineGetter__"
  | PDefineSetter => "__defineSetter__"
  | PHasOwnProperty => "hasOwnProperty"
  | PLookupGetter => "__lookupGetter__"
  | PLookupSetter => "__lookupSetter__"
  | PIsPrototypeOf => "isPrototypeOf"
  | PPropertyIsEnumerable => "propertyIsEnumerable"
  | PToString => "toString"
  | PValueOf => "valueOf"
  | PProto => "__proto__"
  | PToLocaleString => "toLocaleString"
  end.

Definition proto_members : list proto_member :=
  [PConstructor; PDefineGetter; PDefineSetter; PHasOwnProperty; PLookupGetter; PLookupSetter;
   PIsPrototypeOf; PPropertyIsEnumerable; PToString; PValueOf; PProto; PToLocaleString].

(** The inherited property read at key [k], if any. *)
Definition proto_lookup (k : string) : option proto_member :=
  List.find (fun m => proto_member_name m =? k) proto_members.

(** [String(x)] of an inherited property: [Object.prototype] prints as
    [[object Object]], a built-in function as its native source text. *)
Definition proto_text (m : proto_member) : string :=
  match m with
  | PProto => "[object Object]"
  | PConstructor => "function Object() { [native code] }"
  | _ => "function " ++ proto_member_name m ++ "() { [native code] }"
  end.

(** A value stored in a row object, or read from one. *)
Inductive value : Type :=
| VNum (n : jsnum)
| VStr (s : string)
| VUndef
| VInherited (m : proto_member).

(** A row object: its own properties in the order [Object.keys] and
    [Object.values] list them (array indices first, in ascending order, then
    the other keys in creation order).  Its prototype is [Object.prototype]. *)
Definition obj := list (string * value).

(** [k] is an array index (the canonical decimal text of an integer below
    [2^32 - 1]): its number. *)
Definition array_index (k : string) : option Z :=
  match span_digits k with
  | (d :: ds, EmptyString) =>
      if (Nat.eqb d 0 && negb (Nat.eqb (length ds) 0))%bool then None
      else let n := digits_to_Z (d :: ds) in
           if (n <=? 4294967294)%Z then Some n else None
  | _ => None
  end.

(** Creating or updating a property that is not an array index: in place,
    or at the end. *)
Fixpoint obj_put (k : string) (v : value) (o : obj) : obj :=
  match o with
  | [] => [(k, v)]
  | (k', v') :: o' => if k' =? k then (k, v) :: o' else (k', v') :: obj_put k v o'
  end.

(** Creating or updating the array index [k] of number [n]: in place, or
    before the first key that is a larger index or not an index. *)
Fixpoint obj_put_index (n : Z) (k : string) (v : value) (o : obj) : obj :=
  match o with
  | [] => [(k, v)]
  | (k', v') :: o' =>
      if k' =? k then (k, v) :: o'
      else match array_index k' with
           | Some n' => if (n <? n')%Z then (k, v) :: o else (k', v') :: obj_put_index n k v o'
           | None => (k, v) :: o
           end
  end.

(** [o[k] = v] for a primitive [v] (the only values the component assigns):
    at [__proto__] the inherited setter runs and ignores a primitive, so
    nothing is stored. *)
Definition obj_set (k : string) (v : value) (o : obj) : obj :=
  if k =? "__proto__" then o
  else match array_index k with
       | Some n => obj_put_index n k v o
       | None => obj_put k v o
       end.

(** The own property [k] of [o]. *)
Fixpoint own_get (k : string) (o : obj) : option value :=
  match o with
  | [] => None
  | (k', v) :: o' => if k' =? k then Some v else own_get k o'
  end.

(** [o[k]]: the own property, else the inherited one, else [undefined]. *)
Definition obj_get (k : string) (o : obj) : value :=
  match own_get k o with
  | Some v => v
  | None => match proto_lookup k with Some m => VInherited m | None => VUndef end
  end.

(** [Object.values(o)] *)
Definition obj_values (o : obj) : list value := map snd o.

Record column : Type := mk_column {
  key : string;
  label : string;
  sortable : bool;
  filterable : bool;
  type : col_type
}.

(** [header.toLowerCase()] with white space runs replaced by an underscore. *)
Definition header_key (h : string) : string := ws_to_underscore (to_lower h).

(** The column config built for a header, with the type it ends with. *)
Definition header_column (h : string) (t : col_type) : column :=
  {| key := header_key h; label := h; sortable := true; filterable := true; type := t |}.

(* ------------------------------------------------------------------ *)
(** ** Type detection (handleFileUpload, lines 144-156 and 216-228) *)

(** The branch chain run on one cell: the type it assigns to the column
    ([None] when no branch fires: the column type is left as it is) and the
    value stored in the row. *)
Definition detect (v : string) : option col_type * value :=
  if negb (is_nan (to_number v)) && negb (is_nan (parse_float v)) && negb (v =? EmptyString)
  then (Some TNumber, VNum (parse_float v))
  else if match_iso_date v || match_us_date v then (Some TDate, VStr v)
  else if starts_with_char "$" v || match_money v
  then (Some TCurrency, VNum (parse_float (replace_first "$" v)))
  else (None, VStr v).

(** [newColumns[i].type = t] when a branch fires. *)
Definition update_type (i : nat) (det : option col_type) (types : list col_type) : list col_type :=
  match det with
  | Some t => <[i := t]> types
  | None => types
  end.

(* ------------------------------------------------------------------ *)
(** ** CSV branch of handleFileUpload (lines 108-165) *)

(** [text.split(newline)] without the lines that are blank after [trim]. *)
Definition csv_lines (text : string) : list string :=
  List.filter (fun line => negb (trim line =? EmptyString)) (split_on newline text).

(** [line.split(comma).map((v) => v.trim())] with every double quote removed. *)
Definition split_fields (line : string) : list string :=
  map (fun v => remove_char dquote (trim v)) (split_on "," line).

Definition id_value (index : nat) : value := VNum (Fin (inject_Z (Z.of_nat (index + 1)))).

(** [headers.forEach((header, i) => ...)] for one data row, from header
    index [i]; [cell_at i] is the string the loop reads for column [i].
    Threads the column types and the row object. *)
Fixpoint fill_row (hs : list string) (i : nat) (cell_at : nat -> string)
    (types : list col_type) (row : obj) : list col_type * obj :=
  match hs with
  | [] => (types, row)
  | h :: hs' =>
      let '(det, stored) := detect (cell_at i) in
      fill_row hs' (S i) cell_at (update_type i det types) (obj_set (header_key h) stored row)
  end.

(** [rows.map((row, index) => ...)]: the rows in order, each seeing the
    column types left by the previous ones. *)
Fixpoint build_rows {A : Type} (cells : A -> nat -> string) (hs : list string)
    (index : nat) (rows : list A) (types : list col_type) : list col_type * list obj :=
  match rows with
  | [] => (types, [])
  | r :: rest =>
      let '(types1, row) := fill_row hs 0 (cells r) types [("id", id_value index)] in
      let '(types2, objs) := build_rows cells hs (S index) rest types1 in
      (types2, row :: objs)
  end.

(** In the CSV branch the cell is [values[i]], or the empty string past the
    end of the row. *)
Definition csv_cell (line : string) (i : nat) : string := nth i (split_fields line) EmptyString.

(** The parse of the CSV text: [None] is the early return on an empty file,
    otherwise the [newColumns] and [newData] passed to [updateTableData]. *)
Definition csv_parse (text : string) : option (list column * list obj) :=
  match csv_lines text with
  | [] => None
  | l0 :: rest =>
      let headers := split_fields l0 in
      let '(types, data) := build_rows csv_cell headers 0 rest (map (fun _ => TString) headers) in
      Some (zip_with header_column headers types, data)
  end.

(* ------------------------------------------------------------------ *)
(** ** Excel branch of handleFileUpload (lines 170-236) *)

(** A cell of [XLSX.utils.sheet_to_json(worksheet, { header: 1 })]; a blank
    cell is left out of its row array, a hole that reads [undefined]
    ([CUndef]). *)
Inductive cell : Type :=
| CNum (n : jsnum)
| CStr (s : string)
| CBool (b : bool)
| CUndef.

Definition truthy_num (n : jsnum) : bool :=
  match n with
  | Fin q => negb (Qeq_bool q 0)
  | NaN => false
  | _ => true
  end.

Definition truthy (c : cell) : bool :=
  match c with
  | CNum n => truthy_num n
  | CStr s => negb (s =? EmptyString)
  | CBool b => b
  | CUndef => false
  end.

Definition cell_to_string (c : cell) : string :=
  match c with
  | CNum n => show_num n
  | CStr s => s
  | CBool b => if b then "true" else "false"
  | CUndef => "undefined"
  end.

(** [row[i] || ""] followed by [value.toString().trim()]. *)
Definition excel_cell (row : list cell) (i : nat) : string :=
  let c := nth i row CUndef in
  trim (cell_to_string (if truthy c then c else CStr EmptyString)).

(** A header cell: its trimmed text, or a generated placeholder name when it
    is falsy; [placeholder i] stands for the [Column_] name drawn with
    [Math.random] for column [i]. *)
Definition excel_header (placeholder : nat -> string) (i : nat) (c : cell) : string :=
  if truthy c then trim (cell_to_string c) else placeholder i.

Definition is_hole (c : cell) : bool := match c with CUndef => true | _ => false end.

(** The parse of the decoded sheet.  [jsonData[0].map], [headers.map] and
    [headers.forEach] skip the holes of the header row, so a hole gives no
    column and no property; the loop runs over the header cells present,
    each with its position [i] in the row, which is where [row[i]] reads. *)
Definition excel_parse (placeholder : nat -> string) (json : list (list cell))
    : option (list column * list obj) :=
  match json with
  | [] => None
  | r0 :: rest =>
      let present := List.filter (fun ic => negb (is_hole ic.2)) (imap pair r0) in
      let headers := map (fun ic => excel_header placeholder ic.1 ic.2) present in
      let cells (row : list cell) (j : nat) := excel_cell row (nth j (map fst present) 0%nat) in
      let '(types, data) := build_rows cells headers 0 rest (map (fun _ => TString) headers) in
      Some (zip_with header_column headers types, data)
  end.

(* ------------------------------------------------------------------ *)
(** ** Component state and updateTableData (lines 11-20, 252-261) *)

Inductive direction : Type := Asc | Desc.

Record sort_config : Type := mk_sort_config {
  sort_key : option string;      (* [None] is [null] *)
  sort_dir : direction
}.

Record ui_state : Type := mk_ui_state {
  data : list obj;
  columns : list column;
  current_page : Z;
  sort_cfg : sort_config;
  global_filter : string;
  visible_columns : list (string * bool);
  show_column_controls : bool
}.

Fixpoint flag_set (k : string) (b : bool) (o : list (string * bool)) : list (string * bool) :=
  match o with
  | [] => [(k, b)]
  | (k', b') :: o' => if k' =? k then (k, b) :: o' else (k', b') :: flag_set k b o'
  end.

Fixpoint flag_get (k : string) (o : list (string * bool)) : bool :=
  match o with
  | [] => false
  | (k', b) :: o' => if k' =? k then b else flag_get k o'
  end.

(** [newColumns.reduce((acc, col) => ({ ...acc, [col.key]: true }), {})] *)
Definition all_visible (cols : list column) : list (string * bool) :=
  fold_left (fun acc c => flag_set (key c) true acc) cols [].

Definition update_table_data (cols : list column) (rows : list obj) (st : ui_state) : ui_state :=
  {| data := rows; columns := cols; current_page := 1; global_filter := EmptyString;
     sort_cfg := {| sort_key := None; sort_dir := Asc |};
     visible_columns := all_visible cols; show_column_controls := show_column_controls st |}.

(** Outcome of a load: the empty-file toast, or the table replaced. *)
Inductive load_result : Type := EmptyInput | Loaded.

(** The [reader.onload] handler of the CSV branch. *)
Definition load_csv (text : string) (st : ui_state) : load_result * ui_state :=
  match csv_parse text with
  | None => (EmptyInput, st)
  | Some (cols, rows) => (Loaded, update_table_data cols rows st)
  end.

(* ------------------------------------------------------------------ *)
(** ** Query pipeline: filteredData, sortedData, paginatedData (lines 24-56) *)

(** [value.toString()] *)
Definition value_to_string (v : value) : string :=
  match v with
  | VNum n => show_num n
  | VStr s => s
  | VUndef => "undefined"
  | VInherited m => proto_text m
  end.

(** The callback of [Object.values(item).some(...)]. *)
Definition value_matches (filt : string) (v : value) : bool :=
  match v with
  | VUndef => false
  | _ => includes (to_lower (value_to_string v)) (to_lower filt)
  end.

(** The predicate of [data.filter] for a non-empty filter text. *)
Definition matches_filter (filt : string) (item : obj) : bool :=
  existsb (value_matches filt) (obj_values item).

Definition filtered_data (rows : list obj) (filt : string) : list obj :=
  if filt =? EmptyString then rows else List.filter (matches_filter filt) rows.

(** [a > b] and [a === b] on stored values. *)
Definition num_gt (a b : jsnum) : bool :=
  match a, b with
  | Fin x, Fin y => negb (Qle_bool x y)
  | PosInf, (Fin _ | NegInf) => true
  | Fin _, NegInf => true
  | _, _ => false
  end.

Definition num_eq (a b : jsnum) : bool :=
  match a, b with
  | Fin x, Fin y => Qeq_bool x y
  | PosInf, PosInf | NegInf, NegInf => true
  | _, _ => false
  end.

Definition value_to_number (v : value) : jsnum :=
  match v with
  | VNum n => n
  | VStr s => to_number s
  | VUndef => NaN
  | VInherited _ => NaN
  end.

(** [ToPrimitive] with hint number: an inherited object or function gives
    its text. *)
Definition to_primitive (v : value) : value :=
  match v with
  | VInherited m => VStr (proto_text m)
  | _ => v
  end.

(** After [ToPrimitive], strings compare by code units; otherwise both sides
    go to numbers. *)
Definition js_gt (a b : value) : bool :=
  match to_primitive a, to_primitive b with
  | VStr x, VStr y => match String.compare x y with Gt => true | _ => false end
  | a', b' => num_gt (value_to_number a') (value_to_number b')
  end.

Definition strict_eq (a b : value) : bool :=
  match a, b with
  | VNum x, VNum y => num_eq x y
  | VStr x, VStr y => String.eqb x y
  | VUndef, VUndef => true
  | VInherited m, VInherited m' => proto_member_name m =? proto_member_name m'
  | _, _ => false
  end.

(** The comparator passed to [sort] (lines 41-47). *)
Definition sort_compare (k : string) (dir : direction) (a b : obj) : Z :=
  let av := obj_get k a in
  let bv := obj_get k b in
  if strict_eq av bv then 0%Z
  else let r := if js_gt av bv then 1%Z else (-1)%Z in
       match dir with Desc => (- r)%Z | Asc => r end.

Section JsSort.
Context {A : Type}.

(** ECMAScript's notion of a consistent comparator on the elements of
    the array being sorted. *)
Definition consistent (cmp : A -> A -> Z) (l : list A) : Prop :=
  (forall a b, a ∈ l -> b ∈ l -> cmp a b = (- cmp b a)%Z) /\
  (forall a b c, a ∈ l -> b ∈ l -> c ∈ l ->
     (cmp a b <= 0)%Z -> (cmp b c <= 0)%Z -> (cmp a c <= 0)%Z).

Fixpoint insert_by (cmp : A -> A -> Z) (x : A) (l : list A) : list A :=
  match l with
  | [] => [x]
  | y :: l' => if (cmp x y <? 0)%Z then x :: l else y :: insert_by cmp x l'
  end.

(** Insertion of the elements in array order, each after the elements
    it compares equal to. *)
Definition stable_sort (cmp : A -> A -> Z) (l : list A) : list A :=
  fold_left (fun acc x => insert_by cmp x acc) l [].

(** [Array.prototype.sort] (ES2019 and later): the result is a
    permutation; with a consistent comparator it is the unique stable
    sorted order; otherwise the order is implementation-defined. *)
Definition js_sort (cmp : A -> A -> Z) (l l' : list A) : Prop :=
  l' ≡ₚ l /\ (consistent cmp l -> l' = stable_sort cmp l).
End JsSort.

(** [if (!sortConfig.key) return filteredData]: [null] and the empty key
    are falsy.  Otherwise a sorted copy. *)
Definition sorted_data (cfg : sort_config) (fd out : list obj) : Prop :=
  match sort_key cfg with
  | None => out = fd
  | Some k => if k =? EmptyString then out = fd else js_sort (sort_compare k (sort_dir cfg)) fd out
  end.

(** [Array.prototype.slice(start, end)] *)
Definition js_slice {A : Type} (l : list A) (start end_ : Z) : list A :=
  let len := Z.of_nat (length l) in
  let from := if (start <? 0)%Z then Z.max (len + start) 0 else Z.min start len in
  let to := if (end_ <? 0)%Z then Z.max (len + end_) 0 else Z.min end_ len in
  take (Z.to_nat (to - from)) (drop (Z.to_nat from) l).

Definition paginated_data (sd : list obj) (page items_per_page : Z) : list obj :=
  let start_index := ((page - 1) * items_per_page)%Z in
  js_slice sd start_index (start_index + items_per_page).

(** [Math.ceil(sortedData.length / itemsPerPage)] (exact for lengths below
    2^53). *)
Definition total_pages (n items_per_page : Z) : Z :=
  Qceiling (inject_Z n / inject_Z items_per_page).

Record view : Type := mk_view {
  view_rows : list obj;
  view_total_matched : Z;
  view_total_pages : Z
}.

(** One rendering: the view computed from the state and [itemsPerPage]. *)
Definition query (st : ui_state) (items_per_page : Z) (v : view) : Prop :=
  exists sd, sorted_data (sort_cfg st) (filtered_data (data st) (global_filter st)) sd /\
    v = {| view_rows := paginated_data sd (current_page st) items_per_page;
           view_total_matched := Z.of_nat (length sd);
           view_total_pages := total_pages (Z.of_nat (length sd)) items_per_page |}.

(* ------------------------------------------------------------------ *)
(** ** downloadAsExcel (lines 264-290) *)

(** [value.replace(/dq/g, dq dq)]: every double quote doubled. *)
Fixpoint double_quotes (s : string) : string :=
  match s with
  | EmptyString => EmptyString
  | String c r => if Ascii.eqb c dquote then String dquote (String dquote (double_quotes r))
                  else String c (double_quotes r)
  end.

Definition quote_field (s : string) : string :=
  String dquote (double_quotes s ++ String dquote EmptyString).

(** One exported value, as [join] prints it. *)
Definition export_value (c : column) (item : obj) : string :=
  let v := obj_get (key c) item in
  let v' := match type c with
            | TCurrency =>
                match v with
                | VNum n => v
                | _ => let p := parse_float (value_to_string v) in
                       VNum (if truthy_num p then p else Fin 0)
                end
            | _ => v
            end in
  match v' with
  | VStr s => if includes s "," || includes s (String dquote EmptyString) then quote_field s else s
  | VNum n => show_num n
  | VUndef => EmptyString
  | VInherited m => proto_text m
  end.

Fixpoint join (sep : string) (l : list string) : string :=
  match l with
  | [] => EmptyString
  | [x] => x
  | x :: l' => x ++ sep ++ join sep l'
  end.

Definition export_csv (cols : list column) (vis : list (string * bool)) (sd : list obj) : string :=
  let vcols := List.filter (fun c => flag_get (key c) vis) cols in
  join (String newline EmptyString)
    (join "," (map label vcols) :: map (fun item => join "," (map (fun c => export_value c item) vcols)) sd).

(* ------------------------------------------------------------------ *)
(** ** The pipeline over the heap of arrays

    [filteredData] returns the very array [data] when the filter is empty,
    [sortedData] sorts a copy ([...filteredData]) in place, and [slice]
    allocates.  Arrays live in a heap; location [l] holds the elements of
    one array.  Row objects are never written by the pipeline, so they are
    kept as values. *)

Definition heap := list (list obj).

Definition alloc (h : heap) (a : list obj) : heap * nat := ((h ++ [a])%list, length h).

Definition deref (h : heap) (l : nat) : list obj := default [] (h !! l).

Definition filter_step (h : heap) (d : nat) (filt : string) : heap * nat :=
  if filt =? EmptyString then (h, d) else alloc h (List.filter (matches_filter filt) (deref h d)).

(** [[...filteredData].sort(cmp)]: a copy, then the in-place sort of the copy. *)
Definition sort_step (cfg : sort_config) (h : heap) (l : nat) (h' : heap) (l' : nat) : Prop :=
  match sort_key cfg with
  | Some k =>
      if k =? EmptyString then h' = h /\ l' = l
      else let '(h1, c) := alloc h (deref h l) in
           exists out, js_sort (sort_compare k (sort_dir cfg)) (deref h1 c) out /\
                       h' = <[c := out]> h1 /\ l' = c
  | None => h' = h /\ l' = l
  end.

Definition paginate_step (h : heap) (l : nat) (page items_per_page : Z) : heap * nat :=
  alloc h (paginated_data (deref h l) page items_per_page).

(** The three [useMemo] computations, from the array [data] at location [d]
    to the page array at location [out]. *)
Definition pipeline (h : heap) (d : nat) (filt : string) (cfg : sort_config)
    (page items_per_page : Z) (h' : heap) (out : nat) : Prop :=
  let '(h1, lf) := filter_step h d filt in
  exists h2 ls, sort_step cfg h1 lf h2 ls /\ (h', out) = paginate_step h2 ls page items_per_page.

(* ------------------------------------------------------------------ *)
(** ** Event handlers and rendering (lines 58-105, 167, 245-248, 304, 349-352, 517-569) *)

(** [handleSort(key)] (lines 58-66): the new [sortConfig] from the previous one. *)
Definition handle_sort (k : string) (prev : sort_config) : sort_config :=
  {| sort_key := Some k;
     sort_dir := match sort_key prev, sort_dir prev with
                 | Some k', Asc => if k' =? k then Desc else Asc
                 | _, _ => Asc
                 end |}.

(** [toggleColumnVisibility(key)] (lines 68-70): [{ ...prev, [key]: !prev[key] }];
    an absent key reads as [undefined], so [!prev[key]] is [true]. *)
Definition toggle_column_visibility (k : string) (prev : list (string * bool)) : list (string * bool) :=
  flag_set k (negb (flag_get k prev)) prev.

(** [clearGlobalFilter] (lines 72-75). *)
Definition clear_global_filter (st : ui_state) : ui_state :=
  {| data := data st; columns := columns st; current_page := 1; sort_cfg := sort_cfg st;
     global_filter := EmptyString; visible_columns := visible_columns st;
     show_column_controls := show_column_controls st |}.

(** The [onChange] handler of the search input (lines 349-352). *)
Definition search_change (text : string) (st : ui_state) : ui_state :=
  {| data := data st; columns := columns st; current_page := 1; sort_cfg := sort_cfg st;
     global_filter := text; visible_columns := visible_columns st;
     show_column_controls := show_column_controls st |}.

(** The icon drawn by [getSortIcon] (lines 94-97): the up-down arrow, the
    up triangle or the down triangle. *)
Inductive sort_icon : Type := IconUnsorted | IconAsc | IconDesc.

Definition get_sort_icon (cfg : sort_config) (column_key : string) : sort_icon :=
  match sort_key cfg with
  | Some k =>
      if k =? column_key then match sort_dir cfg with Asc => IconAsc | Desc => IconDesc end
      else IconUnsorted
  | None => IconUnsorted
  end.

(** [columns.filter((col) => visibleColumns[col.key])] (line 303). *)
Definition visible_columns_array (cols : list column) (vis : list (string * bool)) : list column :=
  List.filter (fun c => flag_get (key c) vis) cols.

(** The four buttons of the pagination controls (lines 528-569). *)
Inductive nav_button : Type := FirstPage | PrevPage | NextPage | LastPage.

(** Their [disabled] attribute, for [totalPages = tp] and [currentPage = page]. *)
Definition nav_disabled (b : nav_button) (tp page : Z) : bool :=
  match b with
  | FirstPage | PrevPage => (page =? 1)%Z
  | NextPage | LastPage => (page =? tp)%Z
  end.

(** The page their [onClick] sets. *)
Definition nav_target (b : nav_button) (tp page : Z) : Z :=
  match b with
  | FirstPage => 1
  | PrevPage => Z.max (page - 1) 1
  | NextPage => Z.min (page + 1) tp
  | LastPage => tp
  end.

(** A click on a button: a disabled button does nothing. *)
Definition nav_click (b : nav_button) (tp page : Z) : Z :=
  if nav_disabled b tp page then page else nav_target b tp page.

(** The two numbers of the [Showing a - b of n entries] line (lines 517-525). *)
Definition showing_range (page items_per_page n : Z) : Z * Z :=
  (Z.min ((page - 1) * items_per_page + 1) n, Z.min (page * items_per_page) n)%Z.

(** The kind of file chosen by [handleFileUpload] (lines 103-105, 167 and
    245-248): [file.name.split(dot).pop().toLowerCase()] compared with
    [csv], then with [xlsx] and [xls]; any other extension gets the alert. *)
Inductive file_kind : Type := CsvFile | ExcelFile | Unsupported.

Definition file_kind_of (name : string) : file_kind :=
  let file_extension := to_lower (List.last (split_on "." name) EmptyString) in
  if file_extension =? "csv" then CsvFile
  else if (file_extension =? "xlsx") || (file_extension =? "xls") then ExcelFile
  else Unsupported.

(* ------------------------------------------------------------------ *)
(** ** Notions used to state the properties *)

(** A string with no comma, no double quote and no newline: one that a
    CSV reader takes back as it is. *)
Definition clean_field (s : string) : Prop :=
  ~ In ","%char (list_ascii_of_string s) /\ ~ In dquote (list_ascii_of_string s) /\
  ~ In newline (list_ascii_of_string s).

(** A text made of the given lines, each ended by a newline. *)
Fixpoint unlines (ls : list string) : string :=
  match ls with
  | [] => EmptyString
  | l :: r => l ++ String newline (unlines r)
  end.

(** The type that the per-cell rules (number, date, currency, else
    string) assign to one cell. *)
Definition cell_class (v : string) : col_type :=
  match fst (detect v) with Some t => t | None => TString end.

(** Whether one of the number, date or currency branches fires on a cell. *)
Definition detects (v : string) : bool :=
  match fst (detect v) with Some _ => true | None => false end.

(** The class of column [i]'s cell in the last of [rows] on which a branch
    fires; [t0] when there is none. *)
Definition last_detected {A : Type} (cells : A -> nat -> string) (t0 : col_type)
    (rows : list A) (i : nat) : col_type :=
  match find (fun r => detects (cells r i)) (rev rows) with
  | Some r => cell_class (cells r i)
  | None => t0
  end.

(** Inputs of the concrete cases below. *)
Definition c1_input : string := unlines ["Name,Amount"; "Alice,$10.50"; "Bob,20.00"].

Definition c1_records : list obj :=
  [[("id", VNum (Fin 1)); ("name", VStr "Alice"); ("amount", VNum (Fin (21 # 2)))];
   [("id", VNum (Fin 2)); ("name", VStr "Bob"); ("amount", VNum (Fin 20))]].

Definition c2_input : string := unlines ["A"; "1"; "x"].

Definition c2_records : list obj :=
  [[("id", VNum (Fin 1)); ("a", VNum (Fin 1))]; [("id", VNum (Fin 2)); ("a", VStr "x")]].

Definition c3_input : string := unlines ["Name"; "x"].

Definition c5_input : string := unlines ["K"; "5"; "abc"].

Definition c5_records : list obj :=
  [[("id", VNum (Fin 1)); ("k", VNum (Fin 5))]; [("id", VNum (Fin 2)); ("k", VStr "abc")]].

Definition c3_record : obj := [("id", VNum (Fin 1)); ("name", VStr "x")].



(** A decoded sheet: header [A], then the cells [0], [false] and the text 0. *)
Definition c8_sheet : list (list cell) := [[CStr "A"]; [CNum (Fin 0)]; [CBool false]; [CStr "0"]].

Definition c9_input : string := unlines ["Price"; "$abc"].

(* ================================================================== *)
(** * Properties *)

Example show_num_samples :
  map show_num [Fin (21 # 2); Fin 20; Fin (-(1 # 8)); Fin (inject_Z (10 ^ 21)); Fin (1 # 10000000);
                parse_float "1.50e3"; to_number "0x1F"; to_number " 12 "; to_number "12px";
                parse_float "12px"; parse_float "-Infinityx"; to_number EmptyString]
  = ["10.5"; "20"; "-0.125"; "1e+21"; "1e-7"; "1500"; "31"; "12"; "NaN"; "12"; "-Infinity"; "0"].
Proof. vm_compute. reflexivity. Qed.

(* ------------------------------------------------------------------ *)
(** ** Column types and stored cells after a parse *)

Section Parsing.

Lemma length_update_type (i : nat) (det : option col_type) (types : list col_type) :
  length (update_type i det types) = length types.
Proof. destruct det; simpl; [apply length_insert | reflexivity]. Qed.

Lemma length_fill_row_types hs i cell_at types row :
  length (fill_row hs i cell_at types row).1 = length types.
Proof.
  revert i types row; induction hs as [|h hs IH]; intros i types row; simpl; [done|].
  destruct (detect (cell_at i)) as [det stored]. rewrite IH. apply length_update_type.
Qed.

(** Column [j] gets the type of the branch that fires on its cell, if any. *)
Lemma fill_row_types hs i cell_at (types : list col_type) row j :
  j < length types ->
  (fill_row hs i cell_at types row).1 !! j =
    if Nat.leb i j && Nat.ltb j (i + length hs) then
      match fst (detect (cell_at j)) with Some t => Some t | None => types !! j end
    else types !! j.
Proof.
  revert i types row; induction hs as [|h hs IH]; intros i types row Hj; simpl.
  - destruct (Nat.leb_spec i j), (Nat.ltb_spec j (i + 0)); simpl; done || lia.
  - destruct (detect (cell_at i)) as [det stored] eqn:Ed.
    rewrite IH by (rewrite length_update_type; done).
    destruct (decide (j = i)) as [->|Hne].
    + destruct (Nat.leb_spec (S i) i); [lia|]. simpl.
      destruct (Nat.leb_spec i i), (Nat.ltb_spec i (i + S (length hs))); try lia; simpl.
      rewrite Ed; simpl. destruct det; simpl; [by rewrite list_lookup_insert_eq|done].
    + assert (Hu : update_type i det types !! j = types !! j)
        by (destruct det; simpl; [by apply list_lookup_insert_ne|done]).
      destruct (Nat.leb_spec (S i) j), (Nat.ltb_spec j (S i + length hs)),
               (Nat.leb_spec i j), (Nat.ltb_spec j (i + S (length hs))); simpl;
        try lia; try done.
      destruct (fst (detect (cell_at j))); done.
Qed.

Lemma find_app {A : Type} (f : A -> bool) (l1 l2 : list A) :
  find f (l1 ++ l2) = match find f l1 with Some x => Some x | None => find f l2 end.
Proof. induction l1 as [|x l1 IH]; simpl; [done|]. by destruct (f x). Qed.

Lemma last_detected_cons {A : Type} (cells : A -> nat -> string) t0 r rows j :
  last_detected cells t0 (r :: rows) j =
  last_detected cells (match fst (detect (cells r j)) with Some t => t | None => t0 end) rows j.
Proof.
  unfold last_detected; simpl. rewrite find_app.
  destruct (find _ (rev rows)); [done|]. simpl.
  unfold detects. destruct (detect (cells r j)) as [[t|] stored] eqn:E; simpl; [|done].
  unfold cell_class. by rewrite E.
Qed.

(** Over all rows: the type of the last row whose cell fires a branch. *)
Lemma build_rows_types {A : Type} (cells : A -> nat -> string) hs idx (rows : list A)
    (types : list col_type) j t0 :
  length types = length hs -> types !! j = Some t0 ->
  (build_rows cells hs idx rows types).1 !! j = Some (last_detected cells t0 rows j).
Proof.
  revert idx types t0; induction rows as [|r rows IH]; intros idx types t0 Hlen Hj; simpl.
  - done.
  - assert (Hjl : j < length types) by (apply lookup_lt_is_Some; by rewrite Hj).
    destruct (fill_row hs 0 (cells r) types [("id", id_value idx)]) as [types1 row] eqn:Ef.
    pose proof (fill_row_types hs 0 (cells r) types [("id", id_value idx)] j Hjl) as Ht.
    pose proof (length_fill_row_types hs 0 (cells r) types [("id", id_value idx)]) as Hl.
    rewrite Ef in Ht, Hl; simpl in Ht, Hl.
    destruct (build_rows cells hs (S idx) rows types1) as [types2 objs] eqn:Eb; simpl.
    rewrite last_detected_cons.
    replace types2 with (build_rows cells hs (S idx) rows types1).1 by (by rewrite Eb).
    apply IH; [lia|]. rewrite Ht.
    destruct (Nat.ltb_spec j (length hs)); [|lia].
    destruct (detect (cells r j)) as [[t|] stored]; simpl; done.
Qed.

Lemma own_get_put (k k' : string) (v : value) (o : obj) :
  own_get k (obj_put k' v o) = if k' =? k then Some v else own_get k o.
Proof.
  induction o as [|[k1 v1] o IH]; simpl; [done|].
  destruct (String.eqb_spec k1 k') as [->|Hne]; simpl.
  - by destruct (k' =? k).
  - rewrite IH.
    destruct (String.eqb_spec k1 k) as [->|]; destruct (String.eqb_spec k' k) as [->|];
      done || congruence.
Qed.

Lemma own_get_put_index (n : Z) (k k' : string) (v : value) (o : obj) :
  own_get k (obj_put_index n k' v o) = if k' =? k then Some v else own_get k o.
Proof.
  induction o as [|[k1 v1] o IH]; simpl; [done|].
  destruct (String.eqb_spec k1 k') as [->|Hne]; simpl.
  - by destruct (k' =? k).
  - destruct (array_index k1) as [n'|]; [destruct (Z.ltb n n')|]; simpl; try done.
    rewrite IH.
    destruct (String.eqb_spec k1 k) as [->|]; destruct (String.eqb_spec k' k) as [->|];
      done || congruence.
Qed.

Lemma obj_get_set (k k' : string) (v : value) (o : obj) :
  obj_get k (obj_set k' v o) = if (k' =? k) && negb (k' =? "__proto__") then v else obj_get k o.
Proof.
  unfold obj_set. destruct (String.eqb_spec k' "__proto__") as [_|_].
  - by rewrite andb_false_r.
  - rewrite andb_true_r. unfold obj_get.
    destruct (array_index k'); [rewrite own_get_put_index|rewrite own_get_put];
      by destruct (k' =? k).
Qed.

Lemma obj_get_set_proto (k' : string) (v : value) (o : obj) :
  obj_get "__proto__" (obj_set k' v o) = obj_get "__proto__" o.
Proof. rewrite obj_get_set. by destruct (k' =? "__proto__"). Qed.

Lemma fill_row_get_other hs i cell_at types row k :
  k ∉ map header_key hs ->
  obj_get k (fill_row hs i cell_at types row).2 = obj_get k row.
Proof.
  revert i types row; induction hs as [|h hs IH]; intros i types row Hk; simpl; [done|].
  destruct (detect (cell_at i)) as [det stored].
  rewrite IH by (intros Hin; apply Hk; simpl; by right).
  rewrite obj_get_set. destruct (String.eqb_spec (header_key h) k); [|done].
  exfalso; apply Hk; subst; simpl; by left.
Qed.

(** Nothing is stored at [__proto__]: the row reads there what it read before. *)
Lemma fill_row_get_proto hs i cell_at types row :
  obj_get "__proto__" (fill_row hs i cell_at types row).2 = obj_get "__proto__" row.
Proof.
  revert i types row; induction hs as [|h hs IH]; intros i types row; simpl; [done|].
  destruct (detect (cell_at i)) as [det stored].
  by rewrite IH, obj_get_set_proto.
Qed.

(** With distinct keys, the cell of column [j] holds what the detection
    stores for that row's own cell, unless its key is [__proto__]. *)
Lemma fill_row_get hs i cell_at types row j h :
  NoDup (map header_key hs) -> hs !! j = Some h -> header_key h <> "__proto__" ->
  obj_get (header_key h) (fill_row hs i cell_at types row).2 = snd (detect (cell_at (i + j))).
Proof.
  revert i j types row; induction hs as [|h' hs IH]; intros i j types row Hnd Hj Hp; [done|].
  simpl in *. inversion Hnd as [|? ? Hnotin Hnd']; subst.
  destruct (detect (cell_at i)) as [det stored] eqn:Ed.
  destruct j as [|j]; simpl in Hj.
  - injection Hj as ->. rewrite fill_row_get_other by done.
    rewrite obj_get_set, String.eqb_refl, (proj2 (String.eqb_neq _ _) Hp), Nat.add_0_r, Ed. done.
  - rewrite (IH (S i) j) by done. by replace (S i + j) with (i + S j) by lia.
Qed.

Lemma build_rows_row {A : Type} (cells : A -> nat -> string) hs idx (rows : list A) types j o :
  (build_rows cells hs idx rows types).2 !! j = Some o ->
  exists r types', rows !! j = Some r /\
    o = (fill_row hs 0 (cells r) types' [("id", id_value (idx + j))]).2.
Proof.
  revert idx types j; induction rows as [|r rows IH]; intros idx types j Hj; simpl in *; [done|].
  destruct (fill_row hs 0 (cells r) types [("id", id_value idx)]) as [types1 row] eqn:Ef.
  destruct (build_rows cells hs (S idx) rows types1) as [types2 objs] eqn:Eb; simpl in Hj.
  destruct j as [|j]; simpl in Hj.
  - injection Hj as <-. exists r, types. rewrite Nat.add_0_r, Ef. done.
  - replace objs with (build_rows cells hs (S idx) rows types1).2 in Hj by (by rewrite Eb).
    destruct (IH _ _ _ Hj) as (r' & types' & Hr & ->).
    exists r', types'. split; [done|]. by replace (S idx + j) with (idx + S j) by lia.
Qed.

Lemma map_key_columns hs (types : list col_type) :
  length types = length hs -> map key (zip_with header_column hs types) = map header_key hs.
Proof.
  revert types; induction hs as [|h hs IH]; intros [|t types] Hl; simpl in *; try done.
  rewrite IH by lia. done.
Qed.

End Parsing.

Lemma length_build_rows_types {A : Type} (cells : A -> nat -> string) hs idx (rows : list A) types :
  length (build_rows cells hs idx rows types).1 = length types.
Proof.
  revert idx types; induction rows as [|r rows IH]; intros idx types; simpl; [done|].
  pose proof (length_fill_row_types hs 0 (cells r) types [("id", id_value idx)]) as Hl.
  destruct (fill_row hs 0 (cells r) types _) as [types1 row].
  specialize (IH (S idx) types1).
  destruct (build_rows cells hs (S idx) rows types1) as [types2 objs]; simpl in *. lia.
Qed.

Lemma lookup_map_Some {A B : Type} (f : A -> B) (l : list A) i x :
  l !! i = Some x -> map f l !! i = Some (f x).
Proof.
  revert i; induction l as [|y l IH]; intros [|i] H; simpl in *; try done.
  - by injection H as ->.
  - by apply IH.
Qed.

Lemma filter_nil_Forall {A : Type} (f : A -> bool) (l : list A) :
  List.filter f l = [] <-> Forall (fun x => f x = false) l.
Proof.
  induction l as [|x l IH]; simpl; [split; auto|].
  destruct (f x) eqn:Ef; split.
  - done.
  - intros H; inversion H; congruence.
  - intros H; constructor; [done|by apply IH].
  - intros H; inversion H; by apply IH.
Qed.

(* ------------------------------------------------------------------ *)
(** ** C1: the scenario of the spec *)

(** C1 (counterexample): on [Name,Amount / Alice,$10.50 / Bob,20.00] the
    parse does not end with the type currency for the amount column. *)
Lemma c1_amount_not_currency :
  ~ (exists cols, csv_parse c1_input = Some (cols, c1_records) /\
       map key cols = ["name"; "amount"] /\ map type cols !! 1 = Some TCurrency).
Proof.
  intros (cols & H & _ & Ht). vm_compute in H. injection H as <-. vm_compute in Ht. discriminate.
Qed.

(** C1 (amended): the scenario input gives the keys [name] and [amount], the
    amount column ends with type number (its last cell, 20.00, is a number)
    and the records are [{id:1, name:Alice, amount:10.5}] and
    [{id:2, name:Bob, amount:20}]. *)
Theorem c1_scenario :
  match csv_parse c1_input with
  | Some (cols, rows) =>
      map key cols = ["name"; "amount"] /\ map type cols = [TString; TNumber] /\ rows = c1_records
  | None => False
  end.
Proof. vm_compute. repeat split. Qed.

(* ------------------------------------------------------------------ *)
(** ** C2: the final type of a column *)

(** C2 (counterexample): with the data rows [1] and [x] the column ends
    with type number, although the last row's cell classifies as string. *)
Lemma c2_last_string_cell_does_not_win :
  ~ (forall text cols rows hd body i c,
       csv_parse text = Some (cols, rows) -> csv_lines text = hd :: body -> body <> [] ->
       cols !! i = Some c -> type c = cell_class (csv_cell (List.last body EmptyString) i)).
Proof.
  intros H.
  assert (Hp : csv_parse c2_input = Some ([header_column "A" TNumber], c2_records))
    by (vm_compute; reflexivity).
  assert (Hl : csv_lines c2_input = ["A"; "1"; "x"]) by (vm_compute; reflexivity).
  specialize (H c2_input _ _ "A" ["1"; "x"] 0 _ Hp Hl ltac:(discriminate) eq_refl).
  vm_compute in H. discriminate.
Qed.

(** C2 (amended): the final type of column [i] is the class of its cell in
    the last data row whose cell is detected as number, date or currency,
    and string when no row's cell is. *)
Theorem csv_column_type_last_detected (text : string) (cols : list column) (rows : list obj)
    (hd : string) (body : list string) (i : nat) (c : column) :
  csv_parse text = Some (cols, rows) -> csv_lines text = hd :: body -> cols !! i = Some c ->
  type c = last_detected csv_cell TString body i.
Proof.
  unfold csv_parse. intros Hp Hl Hc. rewrite Hl in Hp.
  set (hs := split_fields hd) in *.
  pose proof (build_rows_types csv_cell hs 0 body (map (fun _ => TString) hs) i TString) as Hb.
  destruct (build_rows csv_cell hs 0 body (map (fun _ => TString) hs)) as [types objs] eqn:Eb.
  injection Hp as <- <-.
  rewrite lookup_zip_with in Hc.
  destruct (hs !! i) as [h|] eqn:Eh; simpl in Hc; [|done].
  destruct (types !! i) as [t|] eqn:Et; simpl in Hc; [|done].
  injection Hc as <-. simpl in Hb.
  rewrite Hb in Et; [by injection Et as ->| by rewrite length_map |].
  by apply (lookup_map_Some (fun _ => TString)) in Eh.
Qed.

Lemma csv_column_type_last_detected_witness :
  csv_parse c2_input = Some ([header_column "A" TNumber], c2_records) /\
  csv_lines c2_input = ["A"; "1"; "x"] /\
  type (header_column "A" TNumber) = last_detected csv_cell TString ["1"; "x"] 0.
Proof.
  split; [vm_compute; reflexivity|]. split; [vm_compute; reflexivity|].
  apply (csv_column_type_last_detected c2_input [header_column "A" TNumber] c2_records "A" ["1"; "x"] 0);
    vm_compute; reflexivity.
Defined.

(* ------------------------------------------------------------------ *)
(** ** C5: what a row stores *)

(** C5 (counterexample): with the data rows [5] and [abc] the column has
    type number, but the second row stores the string [abc], neither a
    number nor a zero value. *)
Lemma c5_cell_not_coerced :
  ~ (forall text cols rows c o,
       csv_parse text = Some (cols, rows) -> c ∈ cols -> o ∈ rows -> type c = TNumber ->
       exists n, obj_get (key c) o = VNum n).
Proof.
  intros H.
  assert (Hp : csv_parse c5_input = Some ([header_column "K" TNumber], c5_records))
    by (vm_compute; reflexivity).
  destruct (H c5_input _ _ (header_column "K" TNumber)
              [("id", VNum (Fin 2)); ("k", VStr "abc")] Hp) as [n Hn].
  - by left.
  - right. by left.
  - done.
  - vm_compute in Hn. discriminate.
Qed.

(** C5 (amended): every stored cell is what the detection of that row's own
    cell stores (its [parseFloat] for a number, its [parseFloat] without the
    dollar sign for currency, the raw string otherwise); no cell is
    re-coerced to the column's final type; at a column with key
    [__proto__] nothing is stored and the record reads [Object.prototype].
    Stated for headers with distinct keys (with duplicates the later
    column's value is kept). *)
Theorem csv_cells_per_row_detection (text : string) (cols : list column) (rows : list obj)
    (hd : string) (body : list string) (j : nat) (line : string) (o : obj) (i : nat) (c : column) :
  csv_parse text = Some (cols, rows) -> csv_lines text = hd :: body ->
  NoDup (map key cols) -> body !! j = Some line -> rows !! j = Some o -> cols !! i = Some c ->
  obj_get (key c) o =
    if key c =? "__proto__" then VInherited PProto else snd (detect (csv_cell line i)).
Proof.
  unfold csv_parse. intros Hp Hl Hnd Hline Ho Hc. rewrite Hl in Hp.
  set (hs := split_fields hd) in *.
  pose proof (length_build_rows_types csv_cell hs 0 body (map (fun _ => TString) hs)) as Hlen.
  pose proof (build_rows_row csv_cell hs 0 body (map (fun _ => TString) hs) j o) as Hrow.
  destruct (build_rows csv_cell hs 0 body (map (fun _ => TString) hs)) as [types objs] eqn:Eb.
  injection Hp as <- <-. simpl in Hlen, Hrow.
  rewrite length_map in Hlen.
  rewrite map_key_columns in Hnd by done.
  destruct (Hrow Ho) as (r & types' & Hr & ->).
  rewrite Hline in Hr. injection Hr as <-.
  rewrite lookup_zip_with in Hc.
  destruct (hs !! i) as [h|] eqn:Eh; simpl in Hc; [|done].
  destruct (types !! i) as [t|]; simpl in Hc; [|done].
  injection Hc as <-. simpl.
  destruct (String.eqb_spec (header_key h) "__proto__") as [E|Hpr].
  - rewrite E, fill_row_get_proto. reflexivity.
  - by rewrite (fill_row_get hs 0 (csv_cell line) types' _ i h Hnd Eh Hpr).
Qed.

Lemma csv_cells_per_row_detection_witness :
  csv_parse c5_input = Some ([header_column "K" TNumber], c5_records) /\
  obj_get "k" [("id", VNum (Fin 2)); ("k", VStr "abc")] =
    if "k" =? "__proto__" then VInherited PProto else snd (detect (csv_cell "abc" 0)).
Proof.
  split; [vm_compute; reflexivity|].
  apply (csv_cells_per_row_detection c5_input [header_column "K" TNumber] c5_records "K" ["5"; "abc"]
           1 "abc" [("id", VNum (Fin 2)); ("k", VStr "abc")] 0 (header_column "K" TNumber));
    try (vm_compute; reflexivity).
  apply NoDup_singleton.
Defined.

(* ------------------------------------------------------------------ *)
(** ** C7: the empty file *)

(** C7: loading a CSV text ends in the empty-file outcome exactly when every
    line of [text.split(newline)] is blank after [trim], and then the whole
    component state (table, columns, query state) is left as it was. *)
Theorem csv_load_empty_input (text : string) (st : ui_state) :
  match load_csv text st with
  | (EmptyInput, st') => Forall (fun line => trim line = EmptyString) (split_on newline text) /\ st' = st
  | (Loaded, _) => ~ Forall (fun line => trim line = EmptyString) (split_on newline text)
  end.
Proof.
  assert (Hiff : csv_lines text = [] <->
                 Forall (fun line => trim line = EmptyString) (split_on newline text)).
  { unfold csv_lines. rewrite filter_nil_Forall.
    split; intros H; eapply Forall_impl; try exact H; intros x Hx; simpl in *.
    - apply negb_false_iff in Hx. by apply String.eqb_eq.
    - rewrite Hx. done. }
  unfold load_csv, csv_parse.
  destruct (csv_lines text) as [|l0 rest] eqn:El.
  - split; [by apply Hiff|done].
  - destruct (build_rows _ _ _ _ _) as [types objs].
    intros H. apply Hiff in H. discriminate.
Qed.

(* ------------------------------------------------------------------ *)
(** ** C3: the global filter *)

Lemma prefix_spec (p s : string) :
  String.prefix p s = true <-> exists post, s = p ++ post.
Proof.
  revert s; induction p as [|a p IH]; intros [|b s]; simpl.
  - split; [by exists EmptyString | done].
  - split; [by exists (String b s) | done].
  - split; [done | by intros [post ?]].
  - destruct (ascii_dec a b) as [->|Hab].
    + rewrite IH. split; intros [post Hp]; exists post; [by rewrite Hp | by injection Hp].
    + split; [done|]. intros [post Hp]. injection Hp as ? _. congruence.
Qed.

Lemma includes_spec (s pat : string) :
  includes s pat = true <-> exists pre post, s = pre ++ pat ++ post.
Proof.
  induction s as [|c r IH].
  - change (String.prefix pat EmptyString || false = true <->
            exists pre post, EmptyString = pre ++ pat ++ post).
    rewrite orb_false_r, prefix_spec. split.
    + intros [post Hp]. by exists EmptyString, post.
    + intros ([|c pre] & post & Hp); [by exists post | done].
  - change (String.prefix pat (String c r) || includes r pat = true <->
            exists pre post, String c r = pre ++ pat ++ post).
    rewrite orb_true_iff, prefix_spec, IH. split.
    + intros [[post Hp] | (pre & post & Hp)].
      * by exists EmptyString, post.
      * exists (String c pre), post. by rewrite Hp.
    + intros ([|c' pre] & post & Hp); simpl in Hp.
      * left. by exists post.
      * right. injection Hp as _ Hp. by exists pre, post.
Qed.

Lemma value_matches_spec (filt : string) (v : value) :
  value_matches filt v = true <->
  v <> VUndef /\ exists pre post, to_lower (value_to_string v) = pre ++ to_lower filt ++ post.
Proof.
  unfold value_matches. destruct v; rewrite ?includes_spec.
  1, 2, 4: split; [intros H; split; [done | exact H] | intros [_ H]; exact H].
  split; [done | by intros [? _]].
Qed.

Lemma sorted_data_length (cfg : sort_config) (fd out : list obj) :
  sorted_data cfg fd out -> length out = length fd.
Proof.
  unfold sorted_data. destruct (sort_key cfg) as [k|]; [|by intros ->].
  destruct (k =? EmptyString); [by intros ->|].
  intros [Hp _]. by apply Permutation_length.
Qed.

(** C3 (counterexample): the filter also looks at the synthetic [id]
    field.  In the table parsed from [Name / x] the record [{id:1, name:x}]
    is kept by the filter [1], though its only column value [x] does not
    contain [1]. *)
Lemma c3_id_field_matches :
  ~ (forall text cols rows filt o,
       csv_parse text = Some (cols, rows) -> filt <> EmptyString -> o ∈ rows ->
       (o ∈ filtered_data rows filt <->
        exists c, c ∈ cols /\ value_matches filt (obj_get (key c) o) = true)).
Proof.
  intros H.
  assert (Hp : csv_parse c3_input = Some ([header_column "Name" TString], [c3_record]))
    by (vm_compute; reflexivity).
  specialize (H c3_input _ _ "1" c3_record Hp ltac:(discriminate) ltac:(by left)).
  destruct H as [H _].
  destruct H as (c & Hc & Hm).
  - assert (Hf : filtered_data [c3_record] "1" = [c3_record]) by (vm_compute; reflexivity).
    rewrite Hf. by left.
  - apply list_elem_of_singleton in Hc as ->. vm_compute in Hm. discriminate.
Qed.

(** C3 (amended): an empty filter text keeps the records as they are (so
    the number of matched records is the number of records, whatever the
    sort); a non-empty one keeps, in order, exactly the records one of whose
    field values (the synthetic [id] included), other than [undefined],
    contains the filter text once both are lower-cased. *)
Theorem filtered_data_spec (rows : list obj) (filt : string) :
  (filt = EmptyString -> filtered_data rows filt = rows) /\
  (filt <> EmptyString ->
     filtered_data rows filt = List.filter (matches_filter filt) rows /\
     forall o, In o (filtered_data rows filt) <->
       In o rows /\
       exists v, In v (obj_values o) /\ v <> VUndef /\
         exists pre post, to_lower (value_to_string v) = pre ++ to_lower filt ++ post) /\
  (forall st items_per_page v, global_filter st = EmptyString -> query st items_per_page v ->
     view_total_matched v = Z.of_nat (length (data st))).
Proof.
  unfold filtered_data. split; [|split].
  - by intros ->.
  - intros Hne. destruct (String.eqb_spec filt EmptyString) as [Heq|_]; [done|].
    split; [done|]. intros o. rewrite filter_In.
    unfold matches_filter. rewrite existsb_exists.
    setoid_rewrite value_matches_spec. naive_solver.
  - intros st ipp v Hg (sd & Hsd & ->). simpl.
    rewrite Hg in Hsd. simpl in Hsd. by rewrite (sorted_data_length _ _ _ Hsd).
Qed.

(* ------------------------------------------------------------------ *)
(** ** C8: cells of a spreadsheet *)

(** C8: [row[i] || ...] replaces the falsy cells [0] and [false] by the
    empty string before [toString]; so the sheet [A / 0 / false / text 0]
    stores the empty string for the first two data rows, while the text
    cell 0 is stored as the number 0. *)
Theorem excel_falsy_cells_emptied (placeholder : nat -> string) :
  excel_parse placeholder c8_sheet =
  Some ([header_column "A" TNumber],
        [[("id", VNum (Fin 1)); ("a", VStr EmptyString)];
         [("id", VNum (Fin 2)); ("a", VStr EmptyString)];
         [("id", VNum (Fin 3)); ("a", VNum (Fin 0))]]) /\
  cell_to_string (CNum (Fin 0)) = "0" /\ cell_to_string (CBool false) = "false" /\
  excel_cell [CNum (Fin 0)] 0 = EmptyString /\ excel_cell [CNum (Fin 7)] 0 = "7".
Proof. vm_compute. repeat split. Qed.

(* ------------------------------------------------------------------ *)
(** ** C9: the exported text *)

(** C9: a string value containing a comma or a double quote is exported
    quoted with its quotes doubled, and other string values as they are;
    a currency value that is not a number goes through [parseFloat] and
    gives 0 when that is falsy; but a currency cell stored as the number
    NaN (the cell [$abc] of a currency column) is exported as [NaN], not 0. *)
Theorem export_quoting_and_currency (c : column) (item : obj) (s : string) :
  (type c <> TCurrency -> obj_get (key c) item = VStr s ->
     export_value c item =
       if includes s "," || includes s (String dquote EmptyString) then quote_field s else s) /\
  (type c = TCurrency -> obj_get (key c) item = VStr s -> parse_float s = NaN ->
     export_value c item = "0") /\
  match csv_parse c9_input with
  | Some (cols, rows) =>
      map type cols = [TCurrency] /\ rows = [[("id", VNum (Fin 1)); ("price", VNum NaN)]] /\
      export_csv cols (all_visible cols) rows = "Price" ++ String newline "NaN"
  | None => False
  end.
Proof.
  unfold export_value. split; [|split].
  - intros Ht Hv. rewrite Hv. by destruct (type c).
  - intros Ht Hv Hp. rewrite Ht, Hv. simpl. by rewrite Hp.
  - vm_compute. repeat split.
Qed.

(* ------------------------------------------------------------------ *)
(** ** C6: pagination *)

Lemma js_slice_nonneg {A : Type} (l : list A) (a b : Z) :
  (0 <= a <= b)%Z -> js_slice l a b = take (Z.to_nat (b - a)) (drop (Z.to_nat a) l).
Proof.
  intros Hab. unfold js_slice.
  destruct (Z.ltb_spec a 0) as [|_]; [lia|]. destruct (Z.ltb_spec b 0) as [|_]; [lia|].
  set (len := Z.of_nat (length l)).
  destruct (Z.le_ge_cases a len) as [Ha|Ha].
  - rewrite (Z.min_l a len) by lia.
    destruct (Z.le_ge_cases b len) as [Hb|Hb].
    + by rewrite (Z.min_l b len) by lia.
    + rewrite (Z.min_r b len) by lia.
      rewrite !take_ge; [done| |]; rewrite length_drop; unfold len in *; lia.
  - rewrite (Z.min_r a len), (Z.min_r b len) by lia.
    rewrite (drop_ge l (Z.to_nat a)) by (unfold len in *; lia).
    rewrite Z.sub_diag. simpl. by rewrite take_nil.
Qed.

Lemma paginated_data_take_drop (sd : list obj) (page size : Z) :
  (1 <= page)%Z -> (0 <= size)%Z ->
  paginated_data sd page size = take (Z.to_nat size) (drop (Z.to_nat ((page - 1) * size)) sd).
Proof.
  intros Hp Hs. unfold paginated_data.
  rewrite js_slice_nonneg by nia. by rewrite Z.add_simpl_l.
Qed.

Lemma total_pages_bounds (n size : Z) :
  (0 < size)%Z -> ((total_pages n size - 1) * size < n <= total_pages n size * size)%Z.
Proof.
  intros Hs. unfold total_pages.
  set (x := (inject_Z n / inject_Z size)%Q).
  assert (Hs' : (0 < inject_Z size)%Q) by (rewrite Zlt_Qlt in Hs; exact Hs).
  assert (Hx : (x * inject_Z size == inject_Z n)%Q).
  { unfold x. field. intros H. rewrite H in Hs'. apply (Qlt_irrefl 0), Hs'. }
  split.
  - rewrite Zlt_Qlt, inject_Z_mult, <- Hx. apply Qmult_lt_r; [exact Hs'|]. apply Qceiling_lt.
  - rewrite Zle_Qle, inject_Z_mult, <- Hx. apply Qmult_le_r; [exact Hs'|]. apply Qle_ceiling.
Qed.

Lemma page_length (sd : list obj) (size : Z) (k : nat) :
  (0 <= size)%Z ->
  length (paginated_data sd (Z.of_nat (S k)) size) =
  Nat.min (Z.to_nat size) (length sd - k * Z.to_nat size).
Proof.
  intros Hs. rewrite paginated_data_take_drop by lia.
  rewrite length_take, length_drop.
  replace (Z.to_nat ((Z.of_nat (S k) - 1) * size)) with (k * Z.to_nat size)%nat; [done|].
  rewrite Nat2Z.inj_succ, Z.sub_1_r, Z.pred_succ, Z2Nat.inj_mul, Nat2Z.id by lia. done.
Qed.

Lemma pages_sum (sd : list obj) (size : Z) (k : nat) :
  (0 <= size)%Z ->
  sum_list_with (fun p => length (paginated_data sd (Z.of_nat p) size)) (seq 1 k) =
  Nat.min (k * Z.to_nat size) (length sd).
Proof.
  intros Hs. induction k as [|k IH]; [done|].
  rewrite seq_S, sum_list_with_app, IH. simpl. rewrite Nat.add_0_r, page_length by done.
  set (s := Z.to_nat size). replace (S k * s)%nat with (k * s + s)%nat by lia. lia.
Qed.

(** C6: for a page number [page >= 1] (the component starts at page 1 and
    its buttons keep the page within 1..totalPages while there are rows)
    and a page size [size >= 1], the page is the slice of the sorted
    records at positions [(page-1)*size] up to [page*size] excluded, empty
    for a page after the last one; [totalPages] is the ceiling of
    [n/size] (the least [tp] with [n <= tp*size]), 0 for no records; the
    lengths of pages 1..totalPages add up to [n]; and every page before
    the last one has [size] rows. *)
Theorem pagination_spec (sd : list obj) (page size : Z) :
  (1 <= page)%Z -> (1 <= size)%Z ->
  let n := Z.of_nat (length sd) in
  let tp := total_pages n size in
  paginated_data sd page size = take (Z.to_nat size) (drop (Z.to_nat ((page - 1) * size)) sd) /\
  (tp < page -> paginated_data sd page size = [])%Z /\
  ((tp - 1) * size < n <= tp * size)%Z /\
  (n = 0 -> tp = 0)%Z /\
  sum_list_with (fun p => length (paginated_data sd (Z.of_nat p) size)) (seq 1 (Z.to_nat tp))
    = length sd /\
  (forall p, (1 <= p < tp)%Z -> length (paginated_data sd p size) = Z.to_nat size).
Proof.
  intros Hp Hs n tp.
  pose proof (total_pages_bounds n size ltac:(lia)) as Hb. fold tp in Hb.
  assert (Htp : (0 <= tp)%Z) by nia.
  split; [by apply paginated_data_take_drop; lia|].
  split; [|split; [exact Hb|split; [|split]]].
  - intros Hlt. rewrite paginated_data_take_drop by lia.
    rewrite drop_ge; [by rewrite take_nil|].
    assert (tp * size <= (page - 1) * size)%Z by nia. unfold n in *. lia.
  - intros Hn. nia.
  - rewrite pages_sum by lia.
    assert (Z.of_nat (length sd) <= Z.of_nat (Z.to_nat tp * Z.to_nat size))%Z.
    { rewrite Nat2Z.inj_mul, !Z2Nat.id by lia. unfold n in Hb. lia. }
    lia.
  - intros p Hpl.
    replace p with (Z.of_nat (S (Z.to_nat (p - 1)))) by lia.
    rewrite page_length by lia.
    assert (p * size <= (tp - 1) * size)%Z by nia.
    assert (Z.of_nat (Z.to_nat (p - 1) * Z.to_nat size) + size <= Z.of_nat (length sd))%Z.
    { rewrite Nat2Z.inj_mul, !Z2Nat.id by lia. unfold n in Hb. nia. }
    lia.
Qed.

Lemma pagination_spec_witness :
  (1 <= 2)%Z /\ (1 <= 10)%Z /\
  paginated_data (c1_records ++ c1_records ++ c1_records ++ c1_records ++ c1_records ++ c1_records) 2 10
    = take 10 (drop 10 (c1_records ++ c1_records ++ c1_records ++ c1_records ++ c1_records ++ c1_records)).
Proof.
  split; [lia|]. split; [lia|].
  apply (pagination_spec (c1_records ++ c1_records ++ c1_records ++ c1_records ++ c1_records ++ c1_records)
           2 10); lia.
Defined.

(* ------------------------------------------------------------------ *)
(** ** C10: the pipeline does not write the table *)

(** A heap [h'] extends [h] without changing any of its arrays. *)
Lemma alloc_extends (h : heap) (a : list obj) :
  length h <= length (alloc h a).1 /\ forall i, i < length h -> (alloc h a).1 !! i = h !! i.
Proof.
  unfold alloc; simpl. rewrite length_app. split; [lia|].
  intros i Hi. by apply lookup_app_l.
Qed.

Lemma filter_step_extends (h : heap) (d : nat) (filt : string) :
  length h <= length (filter_step h d filt).1 /\
  forall i, i < length h -> (filter_step h d filt).1 !! i = h !! i.
Proof.
  unfold filter_step. destruct (filt =? EmptyString); [done|]. apply alloc_extends.
Qed.

Lemma sort_step_extends (cfg : sort_config) (h : heap) (l : nat) (h' : heap) (l' : nat) :
  sort_step cfg h l h' l' ->
  length h <= length h' /\ forall i, i < length h -> h' !! i = h !! i.
Proof.
  unfold sort_step. destruct (sort_key cfg) as [k|]; [|by intros [-> _]].
  destruct (k =? EmptyString); [by intros [-> _]|].
  unfold alloc. cbv iota beta. intros (o & _ & -> & _).
  rewrite (@length_insert (list obj)), length_app. simpl. split; [lia|].
  intros i Hi. rewrite (@list_lookup_insert_ne (list obj)) by lia. by apply lookup_app_l.
Qed.

(** C10: whatever the filter text, the sort configuration (the order the
    sort picks included) and the page, computing a view leaves every array
    that existed before unchanged, in particular the array [data] at
    location [d]: its records, their order and their fields.  The sort
    works on the copy made by the spread, at a fresh location. *)
Theorem pipeline_preserves_data (h : heap) (d : nat) (filt : string) (cfg : sort_config)
    (page items_per_page : Z) (h' : heap) (out : nat) :
  pipeline h d filt cfg page items_per_page h' out ->
  length h <= length h' /\ forall i, i < length h -> h' !! i = h !! i.
Proof.
  unfold pipeline. pose proof (filter_step_extends h d filt) as [Hl1 Hf1].
  destruct (filter_step h d filt) as [h1 lf]. simpl in *.
  intros (h2 & ls & Hs & Hp).
  destruct (sort_step_extends _ _ _ _ _ Hs) as [Hl2 Hf2].
  pose proof (alloc_extends h2 (paginated_data (deref h2 ls) page items_per_page)) as [Hl3 Hf3].
  unfold paginate_step in Hp. rewrite <- Hp in Hl3, Hf3. simpl in *.
  split; [lia|]. intros i Hi.
  rewrite Hf3, Hf2, Hf1 by lia. done.
Qed.

Lemma pipeline_preserves_data_witness :
  pipeline [c1_records] 0 EmptyString {| sort_key := Some "name"; sort_dir := Asc |} 1 10
    [c1_records; c1_records; c1_records] 2 /\
  (1 <= 3 /\ forall i, i < 1 -> [c1_records; c1_records; c1_records] !! i = [c1_records] !! i).
Proof.
  assert (Hp : pipeline [c1_records] 0 EmptyString {| sort_key := Some "name"; sort_dir := Asc |} 1 10
                 [c1_records; c1_records; c1_records] 2).
  { unfold pipeline. simpl. exists [c1_records; c1_records], 1. split.
    - simpl. exists c1_records. split; [split; [reflexivity | intros _; vm_compute; reflexivity] | done].
    - vm_compute. reflexivity. }
  split; [exact Hp|].
  apply (pipeline_preserves_data [c1_records] 0 EmptyString {| sort_key := Some "name"; sort_dir := Asc |}
           1 10 [c1_records; c1_records; c1_records] 2 Hp).
Defined.

(* ------------------------------------------------------------------ *)
(** ** C4: sorting *)



Lemma StronglySorted_snoc {A : Type} (R : A -> A -> Prop) (l : list A) (x : A) :
  StronglySorted R l -> (forall y, In y l -> R y x) -> StronglySorted R (l ++ [x]).
Proof.
  induction l as [|y l IH]; simpl; intros Hs Hx; [repeat constructor|].
  apply StronglySorted_inv in Hs as [Hs Hy]. constructor.
  - apply IH; [done|]. intros z Hz. apply Hx. by right.
  - apply Forall_app. split; [done|]. constructor; [apply Hx; by left|constructor].
Qed.

Lemma StronglySorted_rev {A : Type} (R : A -> A -> Prop) (l : list A) :
  StronglySorted R l -> StronglySorted (fun a b => R b a) (rev l).
Proof.
  induction l as [|x l IH]; simpl; intros Hs; [constructor|].
  apply StronglySorted_inv in Hs as [Hs Hx].
  apply StronglySorted_snoc; [by apply IH|].
  intros y Hy. apply in_rev in Hy. by apply (proj1 (List.Forall_forall _ _) Hx).
Qed.

Lemma StronglySorted_impl {A : Type} (R R' : A -> A -> Prop) (l : list A) :
  (forall a b, In a l -> In b l -> R a b -> R' a b) -> StronglySorted R l -> StronglySorted R' l.
Proof.
  induction l as [|x l IH]; intros HR Hs; [constructor|].
  apply StronglySorted_inv in Hs as [Hs Hx]. constructor.
  - apply IH; [|done]. intros a b Ha Hb. apply HR; by right.
  - apply List.Forall_forall. intros y Hy. apply HR; [by left|by right|].
    by apply (proj1 (List.Forall_forall _ _) Hx).
Qed.

(** Two lists sorted for a relation that is antisymmetric on their elements
    and that are permutations of each other are equal. *)
Lemma sorted_perm_unique {A : Type} (R : A -> A -> Prop) (l1 l2 : list A) :
  (forall a b, In a l1 -> In b l1 -> R a b -> R b a -> a = b) ->
  StronglySorted R l1 -> StronglySorted R l2 -> Permutation l1 l2 -> l1 = l2.
Proof.
  revert l2; induction l1 as [|x l1 IH]; intros l2 Hanti H1 H2 Hp.
  - symmetry. by apply Permutation_nil.
  - destruct l2 as [|y l2].
    { apply Permutation_sym, Permutation_nil in Hp. discriminate. }
    apply StronglySorted_inv in H1 as [H1 Hx]. apply StronglySorted_inv in H2 as [H2 Hy].
    assert (x = y) as <-.
    { destruct (Permutation_in x Hp (in_eq x l1)) as [<-|Hx2]; [done|].
      destruct (Permutation_in y (Permutation_sym Hp) (in_eq y l2)) as [->|Hy1]; [done|].
      apply Hanti; [by left | by right | |].
      - by apply (proj1 (List.Forall_forall _ _) Hx).
      - by apply (proj1 (List.Forall_forall _ _) Hy). }
    f_equal. apply IH; [| done | done | by apply Permutation_cons_inv in Hp].
    intros a b Ha Hb. apply Hanti; by right.
Qed.

Lemma insert_by_ext {A : Type} (cmp1 cmp2 : A -> A -> Z) (x : A) (l : list A) :
  (forall a b, cmp1 a b = cmp2 a b) -> insert_by cmp1 x l = insert_by cmp2 x l.
Proof.
  intros He. induction l as [|y l IH]; simpl; [done|]. by rewrite He, IH.
Qed.

Lemma stable_sort_ext {A : Type} (cmp1 cmp2 : A -> A -> Z) (l : list A) :
  (forall a b, cmp1 a b = cmp2 a b) -> stable_sort cmp1 l = stable_sort cmp2 l.
Proof.
  intros He. unfold stable_sort. generalize (@nil A) as acc.
  induction l as [|x l IH]; intros acc; simpl; [done|].
  by rewrite IH, (insert_by_ext cmp1 cmp2).
Qed.

Lemma insert_by_perm {A : Type} (cmp : A -> A -> Z) (x : A) (l : list A) :
  insert_by cmp x l ≡ₚ x :: l.
Proof.
  induction l as [|y l IH]; simpl; [done|].
  destruct (cmp x y <? 0)%Z; [done|]. rewrite IH. apply perm_swap.
Qed.

Lemma stable_sort_perm {A : Type} (cmp : A -> A -> Z) (l : list A) :
  stable_sort cmp l ≡ₚ l.
Proof.
  unfold stable_sort.
  assert (H : forall acc, fold_left (fun acc x => insert_by cmp x acc) l acc ≡ₚ acc ++ l).
  { induction l as [|x l IH]; intros acc; simpl; [by rewrite app_nil_r|].
    rewrite IH, insert_by_perm. simpl. apply Permutation_middle. }
  apply H.
Qed.

Lemma Forall_insert_by {A : Type} (cmp : A -> A -> Z) (Q : A -> Prop) (x : A) (l : list A) :
  Forall Q (insert_by cmp x l) <-> Q x /\ Forall Q l.
Proof.
  induction l as [|y l IH]; simpl.
  - rewrite Forall_cons_iff. tauto.
  - destruct (cmp x y <? 0)%Z; rewrite !Forall_cons_iff; [tauto|]. rewrite IH. tauto.
Qed.

Section StableSort.
Context {A : Type} (cmp : A -> A -> Z) (P : A -> Prop).
Hypothesis cmp_antisym : forall a b, P a -> P b -> cmp a b = (- cmp b a)%Z.
Hypothesis cmp_trans : forall a b c, P a -> P b -> P c ->
  (cmp a b <= 0)%Z -> (cmp b c <= 0)%Z -> (cmp a c <= 0)%Z.

Local Abbreviation sorted := (StronglySorted (fun a b => (cmp a b <= 0)%Z)).
Local Abbreviation same x0 := (fun a => (cmp a x0 =? 0)%Z).



Lemma insert_sorted x s : P x -> Forall P s -> sorted s -> sorted (insert_by cmp x s).
Proof.
  induction s as [|y s IH]; simpl; intros Px HPs Hs; [repeat constructor|].
  apply Forall_cons_iff in HPs as [Py HPs]. apply StronglySorted_inv in Hs as [Hs Hy].
  destruct (Z.ltb_spec (cmp x y) 0) as [Hxy|Hxy].
  - constructor; [by constructor|]. constructor; [lia|].
    apply List.Forall_forall. intros z Hz.
    apply (cmp_trans x y z); auto; [by apply (proj1 (List.Forall_forall _ _) HPs) | lia |].
    by apply (proj1 (List.Forall_forall _ _) Hy).
  - constructor; [by apply IH|]. apply Forall_insert_by. split; [|done].
    rewrite cmp_antisym by done. lia.
Qed.


Lemma fold_insert_props l acc : Forall P l -> Forall P acc -> sorted acc ->
  Forall P (fold_left (fun acc x => insert_by cmp x acc) l acc) /\
  sorted (fold_left (fun acc x => insert_by cmp x acc) l acc).
Proof.
  revert acc; induction l as [|x l IH]; intros acc HPl HPa Ha; simpl; [done|].
  apply Forall_cons_iff in HPl as [Px HPl]. apply IH; [done| |by apply insert_sorted].
  by apply Forall_insert_by.
Qed.

Lemma stable_sort_sorted l : Forall P l -> sorted (stable_sort cmp l).
Proof. intros HP. apply fold_insert_props; [done|constructor|constructor]. Qed.





End StableSort.

(** With a comparator consistent on the elements, sorting with the negated
    comparator gives the reverse order when no two elements compare equal. *)
Lemma stable_sort_opp_rev {A : Type} (cmp : A -> A -> Z) (P : A -> Prop)
    (Hanti : forall a b, P a -> P b -> cmp a b = (- cmp b a)%Z)
    (Htrans : forall a b c, P a -> P b -> P c ->
       (cmp a b <= 0)%Z -> (cmp b c <= 0)%Z -> (cmp a c <= 0)%Z)
    (l : list A) :
  Forall P l -> ForallOrdPairs (fun a b => cmp a b <> 0%Z) l ->
  stable_sort (fun a b => (- cmp a b)%Z) l = rev (stable_sort cmp l).
Proof.
  intros HP Hd.
  assert (HPin : forall a, In a l -> P a) by (apply List.Forall_forall; done).
  assert (HantiD : forall a b, P a -> P b -> (- cmp a b)%Z = (- - cmp b a)%Z).
  { intros a b Pa Pb. rewrite (Hanti a b) by done. lia. }
  assert (HtransD : forall a b c, P a -> P b -> P c ->
            (- cmp a b <= 0)%Z -> (- cmp b c <= 0)%Z -> (- cmp a c <= 0)%Z).
  { intros a b c Pa Pb Pc Hab Hbc.
    rewrite (Hanti a c) by done. rewrite (Hanti a b) in Hab by done. rewrite (Hanti b c) in Hbc by done.
    assert (cmp c a <= 0)%Z by (apply (Htrans c b a); auto; lia). lia. }
  apply (sorted_perm_unique (fun a b => (- cmp a b <= 0)%Z)).
  - intros a b Ha Hb Hab Hba.
    apply (Permutation_in _ (stable_sort_perm _ l)) in Ha, Hb.
    destruct (ForallOrdPairs_In Hd a b Ha Hb) as [->|[H|H]]; [done| |];
      pose proof (Hanti a b ltac:(auto) ltac:(auto)); lia.
  - apply (stable_sort_sorted _ P HantiD HtransD l HP).
  - apply (StronglySorted_impl (fun a b => (cmp b a <= 0)%Z)).
    + intros a b Ha Hb Hba. apply in_rev in Ha, Hb.
      apply (Permutation_in _ (stable_sort_perm _ l)) in Ha, Hb.
      rewrite (Hanti a b) by auto. lia.
    + apply StronglySorted_rev, (stable_sort_sorted _ P Hanti Htrans l HP).
  - rewrite stable_sort_perm. rewrite <- (stable_sort_perm cmp l) at 1. apply Permutation_rev.
Qed.

Lemma consistent_of_Forall {A : Type} (cmp : A -> A -> Z) (P : A -> Prop) (l : list A) :
  (forall a b, P a -> P b -> cmp a b = (- cmp b a)%Z) ->
  (forall a b c, P a -> P b -> P c -> (cmp a b <= 0)%Z -> (cmp b c <= 0)%Z -> (cmp a c <= 0)%Z) ->
  Forall P l -> consistent cmp l.
Proof.
  intros Hanti Htrans HP.
  assert (HPin : forall a, a ∈ l -> P a).
  { intros a Ha. apply list_elem_of_In in Ha. by apply (proj1 (List.Forall_forall _ _) HP). }
  split; intros; [apply Hanti | apply (Htrans a b c)]; auto.
Qed.

(** The three-way comparison [a === b ? 0 : a > b ? 1 : -1] on a class of
    values on which [>] is a strict total order with [===] as equality. *)
Section ThreeWay.
Context {V : Type} (eqb gt : V -> V -> bool) (Q : V -> Prop).
Hypothesis eqb_sym : forall a b, Q a -> Q b -> eqb a b = eqb b a.
Hypothesis gt_total : forall a b, Q a -> Q b -> eqb a b = false -> gt a b = false -> gt b a = true.
Hypothesis gt_asym : forall a b, Q a -> Q b -> gt a b = true -> gt b a = false.
Hypothesis eqb_not_gt : forall a b, Q a -> Q b -> eqb a b = true -> gt a b = false.
Hypothesis ngt_trans : forall a b c, Q a -> Q b -> Q c ->
  gt a b = false -> gt b c = false -> gt a c = false.

Lemma three_way_antisym a b : Q a -> Q b ->
  (if eqb a b then 0 else if gt a b then 1 else -1)%Z =
  (- (if eqb b a then 0 else if gt b a then 1 else -1))%Z.
Proof.
  intros Qa Qb. rewrite (eqb_sym a b) by done.
  destruct (eqb b a) eqn:E; [done|]. rewrite eqb_sym in E by done.
  destruct (gt a b) eqn:G.
  - by rewrite gt_asym.
  - by rewrite gt_total.
Qed.

Lemma three_way_le a b : Q a -> Q b ->
  ((if eqb a b then 0 else if gt a b then 1 else -1) <= 0)%Z <-> gt a b = false.
Proof.
  intros Qa Qb. destruct (eqb a b) eqn:E.
  - rewrite eqb_not_gt by done. split; intros; [done|lia].
  - destruct (gt a b); split; intros; try discriminate; lia.
Qed.

Lemma three_way_trans a b c : Q a -> Q b -> Q c ->
  ((if eqb a b then 0 else if gt a b then 1 else -1) <= 0)%Z ->
  ((if eqb b c then 0 else if gt b c then 1 else -1) <= 0)%Z ->
  ((if eqb a c then 0 else if gt a c then 1 else -1) <= 0)%Z.
Proof.
  intros Qa Qb Qc. rewrite !three_way_le by done. apply ngt_trans; done.
Qed.
End ThreeWay.

(** [>] and [===] on numbers other than NaN. *)
Lemma num_eq_sym (x y : jsnum) : num_eq x y = num_eq y x.
Proof.
  destruct x as [p| | |], y as [q| | |]; simpl; try done.
  destruct (Qeq_bool p q) eqn:E; destruct (Qeq_bool q p) eqn:E'; try done.
  - apply Qeq_bool_iff in E. apply Qeq_sym, Qeq_bool_iff in E. congruence.
  - apply Qeq_bool_iff in E'. apply Qeq_sym, Qeq_bool_iff in E'. congruence.
Qed.

Lemma num_gt_total (x y : jsnum) : is_nan x = false -> is_nan y = false ->
  num_eq x y = false -> num_gt x y = false -> num_gt y x = true.
Proof.
  destruct x as [p| | |], y as [q| | |]; simpl; try done.
  intros _ _ E G. apply negb_false_iff, Qle_bool_iff in G. apply negb_true_iff.
  destruct (Qle_bool q p) eqn:G'; [|done].
  apply Qle_bool_iff in G'. assert (H : (p == q)%Q) by (by apply Qle_antisym).
  apply Qeq_bool_iff in H. congruence.
Qed.

Lemma num_gt_asym (x y : jsnum) : num_gt x y = true -> num_gt y x = false.
Proof.
  destruct x as [p| | |], y as [q| | |]; simpl; try done.
  intros G. apply negb_true_iff in G. apply negb_false_iff, Qle_bool_iff.
  apply Qlt_le_weak, Qnot_le_lt. intros H. apply Qle_bool_iff in H. congruence.
Qed.

Lemma num_eq_not_gt (x y : jsnum) : num_eq x y = true -> num_gt x y = false.
Proof.
  destruct x as [p| | |], y as [q| | |]; simpl; try done.
  intros E. apply Qeq_bool_iff in E. apply negb_false_iff, Qle_bool_iff. rewrite E. apply Qle_refl.
Qed.

Lemma num_ngt_trans (x y z : jsnum) : is_nan y = false ->
  num_gt x y = false -> num_gt y z = false -> num_gt x z = false.
Proof.
  destruct x as [p| | |], y as [q| | |], z as [r| | |]; simpl; try done.
  rewrite !negb_false_iff, !Qle_bool_iff. intros _. apply Qle_trans.
Qed.

(** [>] and [===] on strings: code-unit order. *)
Lemma ascii_compare_refl (c : ascii) : Ascii.compare c c = Eq.
Proof. unfold Ascii.compare. apply N.compare_refl. Qed.

Lemma ascii_compare_lt_trans (a b c : ascii) :
  Ascii.compare a b = Lt -> Ascii.compare b c = Lt -> Ascii.compare a c = Lt.
Proof. unfold Ascii.compare. rewrite !N.compare_lt_iff. lia. Qed.

Lemma string_compare_refl (s : string) : String.compare s s = Eq.
Proof. induction s as [|c s IH]; simpl; [done|]. by rewrite ascii_compare_refl. Qed.

Lemma string_compare_ngt_trans (a b c : string) :
  String.compare a b <> Gt -> String.compare b c <> Gt -> String.compare a c <> Gt.
Proof.
  revert b c; induction a as [|c1 a IH]; intros [|c2 b] [|c3 c]; simpl; try congruence.
  intros H1 H2.
  destruct (Ascii.compare c1 c2) eqn:E12; try congruence;
  destruct (Ascii.compare c2 c3) eqn:E23; try congruence.
  - apply Ascii.compare_eq_iff in E12, E23. subst. rewrite ascii_compare_refl. eauto.
  - apply Ascii.compare_eq_iff in E12. subst. by rewrite E23.
  - apply Ascii.compare_eq_iff in E23. subst. by rewrite E12.
  - by rewrite (ascii_compare_lt_trans _ _ _ E12 E23).
Qed.

Lemma ForallOrdPairs_impl {A : Type} (R R' : A -> A -> Prop) (l : list A) :
  (forall a b, R a b -> R' a b) -> ForallOrdPairs R l -> ForallOrdPairs R' l.
Proof.
  intros HR H. induction H as [|a l Ha H IH]; constructor; [|done].
  eapply Forall_impl; [exact Ha|]. auto.
Qed.


Lemma sort_compare_asc (k : string) (a b : obj) :
  sort_compare k Asc a b =
  (if strict_eq (obj_get k a) (obj_get k b) then 0
   else if js_gt (obj_get k a) (obj_get k b) then 1 else -1)%Z.
Proof. reflexivity. Qed.

Lemma sort_compare_desc (k : string) (a b : obj) :
  sort_compare k Desc a b = (- sort_compare k Asc a b)%Z.
Proof.
  unfold sort_compare. destruct (strict_eq _ _); [done|]. by destruct (js_gt _ _).
Qed.

Lemma sort_compare_zero (k : string) (dir : direction) (a b : obj) :
  (sort_compare k dir a b =? 0)%Z = strict_eq (obj_get k a) (obj_get k b).
Proof.
  unfold sort_compare. destruct (strict_eq _ _); [done|]. by destruct (js_gt _ _), dir.
Qed.

(** When the sort key holds numbers other than NaN in every record, or
    strings in every record, the comparator is consistent in both
    directions. *)
Lemma key_order_props (k : string) (l : list obj) :
  (Forall (fun a => exists n, obj_get k a = VNum n /\ is_nan n = false) l \/
   Forall (fun a => exists s, obj_get k a = VStr s) l) ->
  exists P : obj -> Prop, Forall P l /\
    forall dir,
      (forall a b, P a -> P b -> sort_compare k dir a b = (- sort_compare k dir b a)%Z) /\
      (forall a b c, P a -> P b -> P c -> (sort_compare k dir a b <= 0)%Z ->
         (sort_compare k dir b c <= 0)%Z -> (sort_compare k dir a c <= 0)%Z).
Proof.
  assert (Hdir : forall P : obj -> Prop,
    (forall a b, P a -> P b -> sort_compare k Asc a b = (- sort_compare k Asc b a)%Z) ->
    (forall a b c, P a -> P b -> P c -> (sort_compare k Asc a b <= 0)%Z ->
       (sort_compare k Asc b c <= 0)%Z -> (sort_compare k Asc a c <= 0)%Z) ->
    forall dir,
      (forall a b, P a -> P b -> sort_compare k dir a b = (- sort_compare k dir b a)%Z) /\
      (forall a b c, P a -> P b -> P c -> (sort_compare k dir a b <= 0)%Z ->
         (sort_compare k dir b c <= 0)%Z -> (sort_compare k dir a c <= 0)%Z)).
  { intros P Ha Ht [|]; [done|]. split.
    - intros a b Pa Pb. rewrite !sort_compare_desc, (Ha a b) by done. lia.
    - intros a b c Pa Pb Pc. rewrite !sort_compare_desc.
      rewrite (Ha a b), (Ha b c), (Ha a c) by done.
      intros Hab Hbc. assert (sort_compare k Asc c a <= 0)%Z by (apply (Ht c b a); auto; lia). lia. }
  intros [Hn|Hs].
  - exists (fun a => exists n, obj_get k a = VNum n /\ is_nan n = false). split; [done|].
    apply Hdir.
    + intros a b (x & Ha & Hx) (y & Hb & Hy). rewrite !sort_compare_asc, Ha, Hb.
      cbn [strict_eq js_gt value_to_number].
      apply (three_way_antisym num_eq num_gt (fun n => is_nan n = false)); try done.
      * intros; apply num_eq_sym.
      * intros; by apply num_gt_total.
      * intros; by apply num_gt_asym.
    + intros a b c (x & Ha & Hx) (y & Hb & Hy) (z & Hc & Hz). rewrite !sort_compare_asc, Ha, Hb, Hc.
      cbn [strict_eq js_gt value_to_number].
      apply (three_way_trans num_eq num_gt (fun n => is_nan n = false)); try done.
      * intros; by apply num_eq_not_gt.
      * intros ? ? ? _ ? _; by apply num_ngt_trans.
  - exists (fun a => exists s, obj_get k a = VStr s). split; [done|].
    assert (Hngt : forall x y, match String.compare x y with Gt => true | _ => false end = false ->
                               String.compare x y <> Gt).
    { intros x y H E. by rewrite E in H. }
    apply Hdir.
    + intros a b (x & Ha) (y & Hb). rewrite !sort_compare_asc, Ha, Hb.
      cbn [strict_eq js_gt].
      apply (three_way_antisym String.eqb (fun x y => match String.compare x y with Gt => true | _ => false end)
               (fun _ => True)); try done.
      * intros; apply String.eqb_sym.
      * intros u v _ _ E G. rewrite String.compare_antisym.
        destruct (String.compare u v) eqn:C; simpl; try done.
        apply String.compare_eq_iff in C as ->. by rewrite String.eqb_refl in E.
      * intros u v _ _ G. rewrite String.compare_antisym.
        destruct (String.compare u v) eqn:C; simpl; try done.
    + intros a b c (x & Ha) (y & Hb) (z & Hc). rewrite !sort_compare_asc, Ha, Hb, Hc.
      cbn [strict_eq js_gt].
      apply (three_way_trans String.eqb (fun x y => match String.compare x y with Gt => true | _ => false end)
               (fun _ => True)); try done.
      * intros u v _ _ E. apply String.eqb_eq in E as ->. by rewrite string_compare_refl.
      * intros u v w _ _ _ H1 H2.
        destruct (String.compare u w) eqn:C; try done.
        exfalso. by apply (string_compare_ngt_trans u v w); [apply Hngt..|].
Qed.




(* ================================================================== *)
(** * Properties of the event handlers and of the rendering *)

Lemma flag_get_set (k k' : string) (b : bool) (o : list (string * bool)) :
  flag_get k' (flag_set k b o) = if k =? k' then b else flag_get k' o.
Proof.
  induction o as [|[k1 b1] o IH]; simpl; [done|].
  destruct (String.eqb_spec k1 k) as [->|Hne]; simpl.
  - by destruct (k =? k').
  - rewrite IH. destruct (String.eqb_spec k1 k') as [->|]; [|done].
    destruct (String.eqb_spec k k') as [->|]; [done|]. done.
Qed.

Lemma flag_get_all_visible_acc (k : string) (cols : list column) (acc : list (string * bool)) :
  flag_get k (fold_left (fun acc c => flag_set (key c) true acc) cols acc) =
  existsb (fun c => key c =? k) cols || flag_get k acc.
Proof.
  revert acc; induction cols as [|c cols IH]; intros acc; simpl; [done|].
  rewrite IH, flag_get_set. by destruct (key c =? k), (existsb _ cols).
Qed.

Lemma flag_get_all_visible (k : string) (cols : list column) :
  flag_get k (all_visible cols) = true <-> k ∈ map key cols.
Proof.
  unfold all_visible. rewrite flag_get_all_visible_acc, orb_false_r, existsb_exists.
  rewrite list_elem_of_In, in_map_iff. split.
  - intros (c & Hc & E). apply String.eqb_eq in E. by exists c.
  - intros (c & E & Hc). exists c. split; [done|]. by apply String.eqb_eq.
Qed.

Lemma filter_all_true {A : Type} (f : A -> bool) (l : list A) :
  (forall x, In x l -> f x = true) -> List.filter f l = l.
Proof.
  induction l as [|x l IH]; intros H; simpl; [done|].
  rewrite (H x (or_introl eq_refl)), IH; [done|]. intros y Hy. apply H. by right.
Qed.

(** X1: [toggleColumnVisibility(k)] flips the visibility of the columns
    with key [k] and leaves every other key as it was; toggling the same
    key twice restores the visible columns. *)
Theorem toggle_column_visibility_flip (k : string) (vis : list (string * bool)) :
  (forall k', flag_get k' (toggle_column_visibility k vis) =
              if k =? k' then negb (flag_get k vis) else flag_get k' vis) /\
  (forall cols, visible_columns_array cols (toggle_column_visibility k (toggle_column_visibility k vis)) =
                visible_columns_array cols vis).
Proof.
  assert (H1 : forall vis k', flag_get k' (toggle_column_visibility k vis) =
              if k =? k' then negb (flag_get k vis) else flag_get k' vis).
  { intros vis' k'. unfold toggle_column_visibility. apply flag_get_set. }
  split; [apply H1|]. intros cols. unfold visible_columns_array.
  apply filter_ext. intros c. rewrite !H1.
  destruct (String.eqb_spec k (key c)) as [->|]; [|done].
  rewrite String.eqb_refl. apply negb_involutive.
Qed.

(** X2: after a successful CSV load the table holds the parsed records and
    columns; every column is visible and no other key is flagged; and the
    first rendering shows the first [itemsPerPage] records in file order,
    with every record matched. *)
Theorem load_csv_shows_all (text : string) (st st' : ui_state) :
  load_csv text st = (Loaded, st') ->
  csv_parse text = Some (columns st', data st') /\
  visible_columns_array (columns st') (visible_columns st') = columns st' /\
  (forall k, flag_get k (visible_columns st') = true <-> k ∈ map key (columns st')) /\
  (forall ipp v, (0 <= ipp)%Z -> query st' ipp v ->
     view_rows v = take (Z.to_nat ipp) (data st') /\
     view_total_matched v = Z.of_nat (length (data st'))).
Proof.
  unfold load_csv. destruct (csv_parse text) as [[cols rows]|] eqn:Ep; [|done].
  intros E. injection E as <-. simpl. split; [done|].
  split; [|split].
  - unfold visible_columns_array. apply filter_all_true. intros c Hc.
    apply flag_get_all_visible, list_elem_of_In, in_map_iff. by exists c.
  - intros k. apply flag_get_all_visible.
  - intros ipp v Hipp (sd & Hsd & ->). unfold sorted_data in Hsd. simpl in Hsd. subst sd.
    simpl. split; [|done].
    rewrite paginated_data_take_drop by lia. done.
Qed.

Lemma load_csv_shows_all_witness :
  load_csv c1_input
    {| data := []; columns := []; current_page := 3; sort_cfg := {| sort_key := Some "x"; sort_dir := Desc |};
       global_filter := "q"; visible_columns := []; show_column_controls := false |} =
  (Loaded, update_table_data [header_column "Name" TString; header_column "Amount" TNumber] c1_records
    {| data := []; columns := []; current_page := 3; sort_cfg := {| sort_key := Some "x"; sort_dir := Desc |};
       global_filter := "q"; visible_columns := []; show_column_controls := false |}) /\
  csv_parse c1_input = Some ([header_column "Name" TString; header_column "Amount" TNumber], c1_records).
Proof.
  assert (H : load_csv c1_input
    {| data := []; columns := []; current_page := 3; sort_cfg := {| sort_key := Some "x"; sort_dir := Desc |};
       global_filter := "q"; visible_columns := []; show_column_controls := false |} =
  (Loaded, update_table_data [header_column "Name" TString; header_column "Amount" TNumber] c1_records
    {| data := []; columns := []; current_page := 3; sort_cfg := {| sort_key := Some "x"; sort_dir := Desc |};
       global_filter := "q"; visible_columns := []; show_column_controls := false |})) by (vm_compute; reflexivity).
  split; [exact H|]. exact (proj1 (load_csv_shows_all _ _ _ H)).
Defined.

(** The descending sort is the reverse of the ascending one for comparable,
    pairwise distinct keys. *)
Lemma sorted_data_desc_rev (k : string) (l out out' : list obj) :
  (Forall (fun a => exists n, obj_get k a = VNum n /\ is_nan n = false) l \/
   Forall (fun a => exists s, obj_get k a = VStr s) l) ->
  ForallOrdPairs (fun a b => strict_eq (obj_get k a) (obj_get k b) = false) l ->
  sorted_data {| sort_key := Some k; sort_dir := Asc |} l out ->
  sorted_data {| sort_key := Some k; sort_dir := Desc |} l out' ->
  out' = if k =? EmptyString then out else rev out.
Proof.
  intros Hcl Hd H1 H2.
  destruct (String.eqb_spec k EmptyString) as [->|Hk].
  { unfold sorted_data in H1, H2. simpl in H1, H2. by subst. }
  destruct (key_order_props k l Hcl) as (P & HP & Hdir).
  assert (Hsd : forall dir out, sorted_data {| sort_key := Some k; sort_dir := dir |} l out ->
            out = stable_sort (sort_compare k dir) l).
  { intros dir o H. unfold sorted_data in H. simpl in H.
    rewrite (proj2 (String.eqb_neq _ _) Hk) in H. destruct H as [_ H]. apply H.
    destruct (Hdir dir) as [Ha Ht]. by apply (consistent_of_Forall _ P). }
  destruct (Hdir Asc) as [Ha Ht].
  rewrite (Hsd Asc out H1), (Hsd Desc out' H2).
  rewrite (stable_sort_ext _ (fun a b => (- sort_compare k Asc a b)%Z)) by (intros; apply sort_compare_desc).
  apply (stable_sort_opp_rev _ P Ha Ht l HP).
  eapply ForallOrdPairs_impl; [|exact Hd]. simpl.
  intros a b E Z0. rewrite <- (sort_compare_zero k Asc), Z0 in E. discriminate.
Qed.

(** X3: two successive clicks on the same header, whatever the sort
    before them, sort in opposite directions: when the column's values are
    numbers other than NaN in every record, or strings in every record, and
    no two are equal, the order after the second click is the reverse of the
    order after the first, for a column with a non-empty key.  For the empty
    key [sortedData] does not sort: both clicks give the same order. *)
Theorem header_double_click_reverses (k : string) (cfg : sort_config) (l out out' : list obj) :
  (Forall (fun a => exists n, obj_get k a = VNum n /\ is_nan n = false) l \/
   Forall (fun a => exists s, obj_get k a = VStr s) l) ->
  ForallOrdPairs (fun a b => strict_eq (obj_get k a) (obj_get k b) = false) l ->
  sorted_data (handle_sort k cfg) l out ->
  sorted_data (handle_sort k (handle_sort k cfg)) l out' ->
  out' = if k =? EmptyString then out else rev out.
Proof.
  intros Hcl Hd H1 H2.
  assert (E : handle_sort k (handle_sort k cfg) =
              {| sort_key := Some k;
                 sort_dir := match sort_dir (handle_sort k cfg) with Asc => Desc | Desc => Asc end |}).
  { unfold handle_sort at 1. simpl. rewrite String.eqb_refl. done. }
  rewrite E in H2.
  assert (E1 : handle_sort k cfg = {| sort_key := Some k; sort_dir := sort_dir (handle_sort k cfg) |})
    by done.
  rewrite E1 in H1.
  destruct (sort_dir (handle_sort k cfg)).
  - exact (sorted_data_desc_rev k l out out' Hcl Hd H1 H2).
  - rewrite (sorted_data_desc_rev k l out' out Hcl Hd H2 H1).
    destruct (k =? EmptyString); [done|]. symmetry. apply rev_involutive.
Qed.

Lemma header_double_click_reverses_witness :
  sorted_data (handle_sort "name" {| sort_key := None; sort_dir := Asc |}) c1_records c1_records /\
  sorted_data (handle_sort "name" (handle_sort "name" {| sort_key := None; sort_dir := Asc |}))
    c1_records (rev c1_records) /\
  rev c1_records = if "name" =? EmptyString then c1_records else rev c1_records.
Proof.
  assert (H1 : sorted_data (handle_sort "name" {| sort_key := None; sort_dir := Asc |}) c1_records c1_records).
  { unfold sorted_data. simpl. split; [reflexivity|]. intros _. vm_compute. reflexivity. }
  assert (H2 : sorted_data (handle_sort "name" (handle_sort "name" {| sort_key := None; sort_dir := Asc |}))
                 c1_records (rev c1_records)).
  { unfold sorted_data. simpl. split; [symmetry; apply Permutation_rev|]. intros _. vm_compute. reflexivity. }
  split; [exact H1|]. split; [exact H2|].
  exact (header_double_click_reverses "name" {| sort_key := None; sort_dir := Asc |} c1_records
           c1_records (rev c1_records)
           ltac:(right; repeat constructor; eexists; reflexivity)
           ltac:(repeat constructor) H1 H2).
Defined.

Lemma handle_sort_iter (k : string) (cfg : sort_config) (n : nat) :
  let b := match get_sort_icon cfg k with IconAsc => 1%nat | _ => 0%nat end in
  sort_key (Nat.iter (S n) (handle_sort k) cfg) = Some k /\
  sort_dir (Nat.iter (S n) (handle_sort k) cfg) = if Nat.even (n + b) then Asc else Desc.
Proof.
  intros b. induction n as [|n [IHk IHd]].
  - simpl. split; [done|]. unfold b, get_sort_icon.
    destruct cfg as [[k'|] []]; simpl; try done;
      destruct (k' =? k); done.
  - change (Nat.iter (S (S n)) (handle_sort k) cfg) with
           (handle_sort k (Nat.iter (S n) (handle_sort k) cfg)).
    set (c := Nat.iter (S n) (handle_sort k) cfg) in *.
    unfold handle_sort. cbn [sort_key sort_dir]. rewrite IHk, IHd. split; [done|].
    rewrite String.eqb_refl, Nat.add_succ_l, Nat.even_succ, <- Nat.negb_even.
    by destruct (Nat.even (n + b)).
Qed.

(** X4: after one or more clicks on the header of column [k], only [k]
    shows a direction icon; the first click shows the down triangle if [k]
    showed the up triangle before, the up triangle otherwise, and each
    further click swaps the two triangles. *)
Theorem sort_icon_alternates (k k' : string) (cfg : sort_config) (n : nat) :
  let b := match get_sort_icon cfg k with IconAsc => 1%nat | _ => 0%nat end in
  get_sort_icon (Nat.iter (S n) (handle_sort k) cfg) k' =
  if k =? k' then (if Nat.even (n + b) then IconAsc else IconDesc) else IconUnsorted.
Proof.
  intros b. destruct (handle_sort_iter k cfg n) as [Hk Hd]. fold b in Hd.
  unfold get_sort_icon. rewrite Hk, Hd. destruct (k =? k'); [|done].
  by destruct (Nat.even (n + b)).
Qed.

(** X5: while there is at least one page, the page number stays within
    1..totalPages under any sequence of clicks on the pagination buttons,
    starting from a page in that range; the next and previous buttons move
    by one page when they are enabled. *)
Theorem nav_click_keeps_page_in_range (tp : Z) :
  (1 <= tp)%Z ->
  (forall bs p, (1 <= p <= tp)%Z ->
     (1 <= fold_left (fun p b => nav_click b tp p) bs p <= tp)%Z) /\
  (forall p, (1 <= p < tp)%Z -> nav_click NextPage tp p = (p + 1)%Z) /\
  (forall p, (1 < p <= tp)%Z -> nav_click PrevPage tp p = (p - 1)%Z).
Proof.
  intros Htp. split; [|split].
  - intros bs. induction bs as [|b bs IH]; intros p Hp; simpl; [done|].
    apply IH. unfold nav_click, nav_disabled, nav_target.
    destruct b; destruct (Z.eqb_spec p 1); destruct (Z.eqb_spec p tp); lia.
  - intros p Hp. unfold nav_click, nav_disabled, nav_target.
    destruct (Z.eqb_spec p tp); lia.
  - intros p Hp. unfold nav_click, nav_disabled, nav_target.
    destruct (Z.eqb_spec p 1); lia.
Qed.

Lemma nav_click_keeps_page_in_range_witness :
  (1 <= 3)%Z /\
  fold_left (fun p b => nav_click b 3 p) [NextPage; NextPage; NextPage; PrevPage] 1%Z = 2%Z /\
  (1 <= fold_left (fun p b => nav_click b 3 p) [NextPage; NextPage; NextPage; PrevPage] 1 <= 3)%Z.
Proof.
  split; [lia|]. split; [reflexivity|].
  exact (proj1 (nav_click_keeps_page_in_range 3 ltac:(lia)) _ 1%Z ltac:(lia)).
Defined.

(** X6: when no record matches, there is no page ([totalPages] is 0) and
    the view is empty; from page 1 the next and last buttons are enabled and
    set the page to 0, where the info line reads [1 - itemsPerPage] to [0];
    from page 0 only the first and previous buttons act, and they return to
    page 1. *)
Theorem no_matches_page_zero (st : ui_state) (ipp : Z) (v : view) :
  query st ipp v -> (1 <= ipp)%Z -> view_total_matched v = 0%Z ->
  let tp := view_total_pages v in
  tp = 0%Z /\ view_rows v = [] /\
  nav_click NextPage tp 1 = 0%Z /\ nav_click LastPage tp 1 = 0%Z /\
  showing_range 0 ipp (view_total_matched v) = ((1 - ipp)%Z, 0%Z) /\
  nav_click NextPage tp 0 = 0%Z /\ nav_click LastPage tp 0 = 0%Z /\
  nav_click FirstPage tp 0 = 1%Z /\ nav_click PrevPage tp 0 = 1%Z.
Proof.
  intros (sd & Hsd & ->) Hipp Hn tp. simpl in Hn, tp |- *.
  assert (Hsd0 : sd = []) by (destruct sd; [done | simpl in Hn; lia]).
  subst sd.
  assert (Htp : tp = 0%Z).
  { unfold tp. simpl. unfold total_pages. unfold Qdiv. rewrite Qmult_0_l. reflexivity. }
  rewrite Htp. split; [done|]. split.
  { unfold paginated_data, js_slice. by rewrite drop_nil, take_nil. }
  unfold nav_click, nav_disabled, nav_target, showing_range. simpl.
  repeat split; f_equal; lia.
Qed.

Lemma no_matches_page_zero_witness :
  query {| data := c1_records; columns := []; current_page := 1;
           sort_cfg := {| sort_key := None; sort_dir := Asc |}; global_filter := "zzz";
           visible_columns := []; show_column_controls := false |} 10
        {| view_rows := []; view_total_matched := 0; view_total_pages := 0 |} /\
  (1 <= 10)%Z /\ view_total_pages {| view_rows := []; view_total_matched := 0; view_total_pages := 0 |} = 0%Z.
Proof.
  assert (Hq : query {| data := c1_records; columns := []; current_page := 1;
           sort_cfg := {| sort_key := None; sort_dir := Asc |}; global_filter := "zzz";
           visible_columns := []; show_column_controls := false |} 10
        {| view_rows := []; view_total_matched := 0; view_total_pages := 0 |}).
  { exists []. split; [vm_compute; reflexivity|]. vm_compute. reflexivity. }
  split; [exact Hq|]. split; [lia|].
  exact (proj1 (no_matches_page_zero _ 10 _ Hq ltac:(lia) eq_refl)).
Defined.

(** X7: on a page within 1..totalPages the info line is consistent with
    the rows shown: it reads from [(page-1)*itemsPerPage + 1] to
    [(page-1)*itemsPerPage] plus the number of rows on the page, and the
    page is not empty. *)
Theorem showing_range_matches_view (st : ui_state) (ipp : Z) (v : view) :
  query st ipp v -> (1 <= ipp)%Z -> (1 <= current_page st <= view_total_pages v)%Z ->
  let start := ((current_page st - 1) * ipp)%Z in
  showing_range (current_page st) ipp (view_total_matched v) =
    ((start + 1)%Z, (start + Z.of_nat (length (view_rows v)))%Z) /\
  view_rows v <> [].
Proof.
  intros (sd & Hsd & ->) Hipp Hp start. simpl in Hp |- *.
  pose proof (total_pages_bounds (Z.of_nat (length sd)) ipp ltac:(lia)) as Hb.
  set (tp := total_pages (Z.of_nat (length sd)) ipp) in *.
  rewrite paginated_data_take_drop by lia.
  assert (Hs : (0 <= start < Z.of_nat (length sd))%Z) by (unfold start; nia).
  assert (Hlen : length (take (Z.to_nat ipp) (drop (Z.to_nat start) sd)) =
                 Nat.min (Z.to_nat ipp) (length sd - Z.to_nat start))
    by (rewrite length_take, length_drop; done).
  split.
  - unfold showing_range. fold start. rewrite Hlen. f_equal; [lia|].
    replace (current_page st * ipp)%Z with (start + ipp)%Z by (unfold start; lia). lia.
  - intros E. fold start in E. rewrite E in Hlen. simpl in Hlen. lia.
Qed.

Lemma showing_range_matches_view_witness :
  query {| data := c1_records; columns := []; current_page := 2;
           sort_cfg := {| sort_key := None; sort_dir := Asc |}; global_filter := EmptyString;
           visible_columns := []; show_column_controls := false |} 1
        {| view_rows := [nth 1 c1_records []]; view_total_matched := 2; view_total_pages := 2 |} /\
  showing_range 2 1 2 = (2%Z, 2%Z).
Proof.
  assert (Hq : query {| data := c1_records; columns := []; current_page := 2;
           sort_cfg := {| sort_key := None; sort_dir := Asc |}; global_filter := EmptyString;
           visible_columns := []; show_column_controls := false |} 1
        {| view_rows := [nth 1 c1_records []]; view_total_matched := 2; view_total_pages := 2 |}).
  { exists c1_records. split; [reflexivity|]. vm_compute. reflexivity. }
  split; [exact Hq|].
  exact (proj1 (showing_range_matches_view _ 1 _ Hq ltac:(lia) ltac:(simpl; lia))).
Defined.

(** X8: typing in the search box or clearing it goes back to page 1, so
    the view shows the first [itemsPerPage] rows of the sorted matches of
    the new text; after clearing, every record is counted as matched. *)
Theorem search_change_first_page (text : string) (st : ui_state) (ipp : Z) :
  (0 <= ipp)%Z ->
  (forall v, query (search_change text st) ipp v ->
     exists sd, sorted_data (sort_cfg st) (filtered_data (data st) text) sd /\
       view_rows v = take (Z.to_nat ipp) sd) /\
  (forall v, query (clear_global_filter st) ipp v ->
     view_total_matched v = Z.of_nat (length (data st)) /\
     exists sd, sorted_data (sort_cfg st) (data st) sd /\ view_rows v = take (Z.to_nat ipp) sd).
Proof.
  intros Hipp. split.
  - intros v (sd & Hsd & ->). exists sd. split; [done|]. simpl.
    by rewrite paginated_data_take_drop by lia.
  - intros v (sd & Hsd & ->). simpl in Hsd |- *.
    split; [by rewrite (sorted_data_length _ _ _ Hsd)|].
    exists sd. split; [done|]. by rewrite paginated_data_take_drop by lia.
Qed.

Lemma search_change_first_page_witness :
  (0 <= 10)%Z /\
  forall v, query (clear_global_filter
    {| data := c1_records; columns := []; current_page := 2;
       sort_cfg := {| sort_key := None; sort_dir := Asc |}; global_filter := "bob";
       visible_columns := []; show_column_controls := false |}) 10 v ->
    view_total_matched v = 2%Z.
Proof.
  split; [lia|]. intros v Hv.
  exact (proj1 (proj2 (search_change_first_page EmptyString _ 10 ltac:(lia)) v Hv)).
Defined.

Lemma str_app_assoc (a b c : string) : ((a ++ b) ++ c) = (a ++ (b ++ c)).
Proof. induction a as [|x a IH]; simpl; [done|]. by rewrite IH. Qed.


Lemma to_lower_empty (s : string) : (to_lower s =? EmptyString) = (s =? EmptyString).
Proof. by destruct s. Qed.




(** X10: the search ignores the case of its text: two texts equal once
    lower-cased select the same records. *)
Theorem filter_case_insensitive (rows : list obj) (f g : string) :
  to_lower f = to_lower g -> filtered_data rows f = filtered_data rows g.
Proof.
  intros E. unfold filtered_data.
  rewrite <- (to_lower_empty f), <- (to_lower_empty g), E.
  destruct (to_lower g =? EmptyString); [done|].
  apply filter_ext. intros item. unfold matches_filter, value_matches. by rewrite E.
Qed.

Lemma filter_case_insensitive_witness :
  to_lower "BOB" = to_lower "bOb" /\
  filtered_data c1_records "BOB" = filtered_data c1_records "bOb".
Proof.
  split; [reflexivity|]. apply filter_case_insensitive. reflexivity.
Defined.

(** Characters of strings. *)
Lemma list_ascii_of_string_app (a b : string) :
  list_ascii_of_string (a ++ b) = (list_ascii_of_string a ++ list_ascii_of_string b)%list.
Proof. induction a as [|x a IH]; simpl; [done|]. by rewrite IH. Qed.

Lemma includes_char (s : string) (c : ascii) :
  includes s (String c EmptyString) = true <-> In c (list_ascii_of_string s).
Proof.
  induction s as [|d r IH]; [done|].
  change ((String.prefix (String c EmptyString) (String d r) || includes r (String c EmptyString)) = true
          <-> d = c \/ In c (list_ascii_of_string r)).
  rewrite orb_true_iff, IH. simpl.
  destruct (ascii_dec c d) as [->|Hne].
  - assert (Hp : String.prefix EmptyString r = true) by (by destruct r).
    rewrite Hp. split; intros _; by left.
  - split; intros [H|H]; try discriminate; try (by right); congruence.
Qed.

Lemma remove_char_absent (c : ascii) (s : string) :
  ~ In c (list_ascii_of_string (remove_char c s)).
Proof.
  induction s as [|d r IH]; cbn [remove_char list_ascii_of_string]; [by intros []|].
  destruct (Ascii.eqb_spec d c) as [->|Hne]; [exact IH|].
  cbn [list_ascii_of_string In]. intros [->|H]; [done|auto].
Qed.

Lemma remove_char_sub (c x : ascii) (s : string) :
  In x (list_ascii_of_string (remove_char c s)) -> In x (list_ascii_of_string s).
Proof.
  induction s as [|d r IH]; cbn [remove_char list_ascii_of_string]; [done|].
  destruct (Ascii.eqb d c); cbn [list_ascii_of_string In]; intuition.
Qed.

Lemma drop_ws_sub (x : ascii) (l : list ascii) : In x (drop_ws l) -> In x l.
Proof. induction l as [|d l IH]; simpl; [done|]. destruct (is_ws d); simpl; intuition. Qed.

Lemma trim_sub (x : ascii) (s : string) :
  In x (list_ascii_of_string (trim s)) -> In x (list_ascii_of_string s).
Proof.
  unfold trim, rtrim. rewrite list_ascii_of_string_of_list_ascii.
  intros H. apply in_rev, drop_ws_sub, in_rev in H.
  induction s as [|d r IH]; simpl in *; [done|].
  destruct (is_ws d); [right; auto|done].
Qed.

Lemma split_on_absent (sep : ascii) (s p : string) :
  In p (split_on sep s) -> ~ In sep (list_ascii_of_string p).
Proof.
  revert p; induction s as [|c r IH]; intros p; simpl.
  - intros [<-|[]] [].
  - destruct (Ascii.eqb_spec c sep) as [->|Hne].
    + intros [<-|Hp]; [by intros []|auto].
    + destruct (split_on sep r) as [|x xs] eqn:Es.
      * intros [<-|[]]. simpl. intros [E|[]]. congruence.
      * intros [<-|Hp].
        -- simpl. intros [E|H]; [congruence|]. apply (IH x); [by left|done].
        -- apply IH. by right.
Qed.

Lemma split_on_sub (sep x : ascii) (s p : string) :
  In p (split_on sep s) -> In x (list_ascii_of_string p) -> In x (list_ascii_of_string s).
Proof.
  revert p; induction s as [|c r IH]; intros p; simpl.
  - by intros [<-|[]].
  - destruct (Ascii.eqb c sep).
    + intros [<-|Hp]; [by intros []|]. intros Hx. right. exact (IH p Hp Hx).
    + destruct (split_on sep r) as [|y ys] eqn:Es.
      * intros [<-|[]]. simpl. intros [->|[]]. by left.
      * intros [<-|Hp].
        -- simpl. intros [->|Hx]; [by left|]. right. apply (IH y); [by left|done].
        -- intros Hx. right. apply (IH p); [by right|done].
Qed.

(** Neither a comma nor a double quote is left in a field of a CSV line,
    and its characters are characters of the line. *)
Lemma split_fields_clean (line f : string) :
  In f (split_fields line) ->
  ~ In ","%char (list_ascii_of_string f) /\ ~ In dquote (list_ascii_of_string f) /\
  (forall x, In x (list_ascii_of_string f) -> In x (list_ascii_of_string line)).
Proof.
  unfold split_fields. intros (p & <- & Hp)%in_map_iff. split; [|split].
  - intros H. apply remove_char_sub, trim_sub in H. exact (split_on_absent _ _ _ Hp H).
  - apply remove_char_absent.
  - intros x H. apply remove_char_sub, trim_sub in H. exact (split_on_sub _ _ _ _ Hp H).
Qed.

Lemma detect_str (v s : string) : snd (detect v) = VStr s -> s = v.
Proof.
  unfold detect.
  destruct (negb (is_nan (to_number v)) && _ && _); [done|].
  destruct (match_iso_date v || match_us_date v); [by injection 1|].
  destruct (starts_with_char "$" v || match_money v); [done|]. by injection 1.
Qed.

Lemma obj_set_Forall (P : value -> Prop) (k : string) (v : value) (o : obj) :
  Forall (fun kv => P kv.2) o -> P v -> Forall (fun kv => P kv.2) (obj_set k v o).
Proof.
  intros Ho Hv. unfold obj_set. destruct (k =? "__proto__"); [done|].
  destruct (array_index k) as [n|].
  - induction Ho as [|[k1 v1] o H1 Ho IH]; simpl; [by repeat constructor|].
    destruct (k1 =? k); [by constructor|].
    destruct (array_index k1) as [n'|]; [destruct (Z.ltb n n')|]; by repeat constructor.
  - induction Ho as [|[k1 v1] o H1 Ho IH]; simpl; [by repeat constructor|].
    destruct (k1 =? k); constructor; auto.
Qed.

Lemma fill_row_Forall (P : value -> Prop) hs i cell_at types row :
  (forall j, P (snd (detect (cell_at j)))) -> Forall (fun kv => P kv.2) row ->
  Forall (fun kv => P kv.2) (fill_row hs i cell_at types row).2.
Proof.
  revert i types row; induction hs as [|h hs IH]; intros i types row Hc Hr; simpl; [done|].
  pose proof (Hc i) as Hi. destruct (detect (cell_at i)) as [det stored]. simpl in Hi.
  apply IH; [done|]. by apply obj_set_Forall.
Qed.

Lemma build_rows_Forall {A : Type} (P : value -> Prop) (cells : A -> nat -> string) hs idx
    (rows : list A) types :
  (forall i, P (id_value i)) -> (forall r j, In r rows -> P (snd (detect (cells r j)))) ->
  Forall (fun o => Forall (fun kv => P kv.2) o) (build_rows cells hs idx rows types).2.
Proof.
  intros Hid Hc. revert idx types; induction rows as [|r rows IH]; intros idx types; simpl; [done|].
  pose proof (fill_row_Forall P hs 0 (cells r) types [("id", id_value idx)]
                (fun j => Hc r j (or_introl eq_refl))
                ltac:(repeat constructor; apply Hid)) as Hf.
  destruct (fill_row hs 0 (cells r) types [("id", id_value idx)]) as [types1 row].
  specialize (IH (fun r' j Hr' => Hc r' j (or_intror Hr')) (S idx) types1).
  destruct (build_rows cells hs (S idx) rows types1) as [types2 objs]. simpl in *.
  by constructor.
Qed.

(** A string read from a row is an own property. *)
Lemma obj_get_In (k : string) (o : obj) (s : string) :
  obj_get k o = VStr s -> In (k, VStr s) o.
Proof.
  unfold obj_get. induction o as [|[k1 v1] o IH]; simpl.
  - by destruct (proto_lookup k).
  - destruct (String.eqb_spec k1 k) as [->|]; [intros ->; by left|]. intros; right; auto.
Qed.

Lemma In_zip_with_header (c : column) hs (types : list col_type) :
  In c (zip_with header_column hs types) -> exists h t, c = header_column h t /\ In h hs.
Proof.
  revert types; induction hs as [|h hs IH]; intros [|t types]; simpl; try done.
  intros [<-|H]; [by exists h, t; auto|].
  destruct (IH types H) as (h' & t' & -> & Hh). exists h', t'. auto.
Qed.

Lemma csv_parse_inv (text : string) (cols : list column) (rows : list obj) :
  csv_parse text = Some (cols, rows) ->
  exists hd body types,
    csv_lines text = hd :: body /\
    build_rows csv_cell (split_fields hd) 0 body (map (fun _ => TString) (split_fields hd)) = (types, rows) /\
    cols = zip_with header_column (split_fields hd) types /\
    length types = length (split_fields hd).
Proof.
  unfold csv_parse. destruct (csv_lines text) as [|hd body]; [done|].
  pose proof (length_build_rows_types csv_cell (split_fields hd) 0 body
                (map (fun _ => TString) (split_fields hd))) as Hl.
  destruct (build_rows _ _ _ _ _) as [types data0] eqn:Eb. intros E. injection E as <- <-.
  exists hd, body, types. rewrite length_map in Hl. by repeat split.
Qed.

Lemma csv_lines_no_newline (text line : string) :
  In line (csv_lines text) -> ~ In newline (list_ascii_of_string line).
Proof.
  unfold csv_lines. intros (Hin & _)%filter_In. exact (split_on_absent _ _ _ Hin).
Qed.

(** The strings of a table loaded from CSV text, labels and string cells,
    hold no comma, no double quote and no newline. *)
Lemma csv_parse_strings (text : string) (cols : list column) (rows : list obj) :
  csv_parse text = Some (cols, rows) ->
  (forall c, In c cols -> clean_field (label c)) /\
  (forall o k s, In o rows -> In (k, VStr s) o -> clean_field s).
Proof.
  intros Hp. destruct (csv_parse_inv _ _ _ Hp) as (hd & body & types & Hl & Eb & -> & _).
  assert (Hline : forall line f, In line (csv_lines text) -> In f (split_fields line) -> clean_field f).
  { intros line f Hline Hf. destruct (split_fields_clean _ _ Hf) as (H1 & H2 & H3).
    split; [done|]. split; [done|]. intros Hn. exact (csv_lines_no_newline _ _ Hline (H3 _ Hn)). }
  set (P := fun v => forall s, v = VStr s -> clean_field s).
  assert (Hrows : Forall (fun o => Forall (fun kv => P kv.2) o) rows).
  { replace rows with (build_rows csv_cell (split_fields hd) 0 body
                         (map (fun _ => TString) (split_fields hd))).2 by (by rewrite Eb).
    apply build_rows_Forall.
    - intros i s E. discriminate.
    - intros r j Hr s E. apply detect_str in E. subst s. unfold csv_cell.
      destruct (nth_in_or_default j (split_fields r) EmptyString) as [Hin | ->].
      + apply (Hline r); [rewrite Hl; by right|done].
      + unfold clean_field. simpl. tauto. }
  split.
  - intros c Hc. destruct (In_zip_with_header _ _ _ Hc) as (h & t & -> & Hh).
    apply (Hline hd); [rewrite Hl; by left|done].
  - intros o k s Ho Hks.
    pose proof (proj1 (List.Forall_forall _ _) Hrows o Ho) as Hf.
    exact (proj1 (List.Forall_forall _ _) Hf (k, VStr s) Hks s eq_refl).
Qed.

(** X11: no string of a table loaded from CSV text contains a comma or a
    double quote (fields are cut at commas and stripped of double quotes),
    neither a column label nor a string cell; so the export writes such a
    cell as it is, never quoted, in a column that is not currency. *)
Theorem csv_strings_unquoted (text : string) (cols : list column) (rows : list obj) :
  csv_parse text = Some (cols, rows) ->
  (forall c, In c cols ->
     ~ In ","%char (list_ascii_of_string (label c)) /\ ~ In dquote (list_ascii_of_string (label c))) /\
  (forall o k s, In o rows -> In (k, VStr s) o ->
     ~ In ","%char (list_ascii_of_string s) /\ ~ In dquote (list_ascii_of_string s)) /\
  (forall o c s, In o rows -> obj_get (key c) o = VStr s -> type c <> TCurrency ->
     export_value c o = s).
Proof.
  intros Hp. destruct (csv_parse_strings _ _ _ Hp) as [Hcols Hrows].
  assert (Hstr : forall o k s, In o rows -> In (k, VStr s) o ->
            ~ In ","%char (list_ascii_of_string s) /\ ~ In dquote (list_ascii_of_string s)).
  { intros o k s Ho Hks. destruct (Hrows o k s Ho Hks) as (H1 & H2 & _). by split. }
  split; [|split; [exact Hstr|]].
  - intros c Hc. destruct (Hcols c Hc) as (H1 & H2 & _). by split.
  - intros o c s Ho Hg Ht. unfold export_value. rewrite Hg.
    destruct (type c); try done;
    destruct (Hstr o (key c) s Ho (obj_get_In _ _ _ Hg)) as [H1 H2];
    rewrite <- includes_char in H1, H2;
    by rewrite (not_true_is_false _ H1), (not_true_is_false _ H2).
Qed.

Lemma csv_strings_unquoted_witness :
  csv_parse c1_input = Some ([header_column "Name" TString; header_column "Amount" TNumber], c1_records) /\
  export_value (header_column "Name" TString) (nth 0 c1_records []) = "Alice".
Proof.
  assert (Hp : csv_parse c1_input =
               Some ([header_column "Name" TString; header_column "Amount" TNumber], c1_records))
    by (vm_compute; reflexivity).
  split; [exact Hp|].
  apply (proj2 (proj2 (csv_strings_unquoted _ _ _ Hp))).
  - simpl. by left.
  - reflexivity.
  - discriminate.
Defined.

(** A new key that is neither an array index nor [__proto__] comes last. *)
Lemma obj_set_keys (k : string) (v : value) (o : obj) :
  array_index k = None -> k <> "__proto__" ->
  k ∉ map fst o -> map fst (obj_set k v o) = (map fst o ++ [k])%list.
Proof.
  intros Hi Hp. unfold obj_set. rewrite (proj2 (String.eqb_neq _ _) Hp), Hi.
  induction o as [|[k1 v1] o IH]; simpl; [done|].
  intros Hk. apply not_elem_of_cons in Hk as [Hk1 Hk].
  destruct (String.eqb_spec k1 k) as [->|]; [done|]. simpl. by rewrite IH.
Qed.

Lemma fill_row_keys hs i cell_at types (row : obj) :
  Forall (fun k => array_index k = None /\ k <> "__proto__") (map header_key hs) ->
  NoDup (map fst row ++ map header_key hs)%list ->
  map fst (fill_row hs i cell_at types row).2 = (map fst row ++ map header_key hs)%list.
Proof.
  revert i types row; induction hs as [|h hs IH]; intros i types row Hf Hnd; simpl.
  - by rewrite app_nil_r.
  - destruct (detect (cell_at i)) as [det stored].
    simpl in Hf, Hnd. inversion Hf as [|? ? [Hi Hpr] Hf']; subst. rewrite cons_middle, List.app_assoc in Hnd |- *.
    assert (Hk : header_key h ∉ map fst row).
    { apply NoDup_app in Hnd as [Hnd1 _]. apply NoDup_app in Hnd1 as (_ & Hd & _).
      intros Hin. apply (Hd _ Hin). by left. }
    rewrite IH; rewrite ?obj_set_keys by done; [done|exact Hf'|exact Hnd].
Qed.

Lemma build_rows_id {A : Type} (cells : A -> nat -> string) hs idx (rows : list A) types j o :
  "id" ∉ map header_key hs -> (build_rows cells hs idx rows types).2 !! j = Some o ->
  obj_get "id" o = id_value (idx + j).
Proof.
  intros Hid Ho. destruct (build_rows_row cells hs idx rows types j o Ho) as (r & types' & _ & ->).
  rewrite fill_row_get_other by done. done.
Qed.

Lemma excel_parse_inv (placeholder : nat -> string) (json : list (list cell))
    (cols : list column) (rows : list obj) :
  excel_parse placeholder json = Some (cols, rows) ->
  exists body hs (cells : list cell -> nat -> string) types,
    build_rows cells hs 0 body (map (fun _ => TString) hs) = (types, rows) /\
    cols = zip_with header_column hs types /\ length types = length hs.
Proof.
  unfold excel_parse. destruct json as [|r0 body]; [done|]. cbv zeta.
  match goal with
  | |- context [build_rows ?cells ?hs 0 body ?t] =>
      pose proof (length_build_rows_types cells hs 0 body t) as Hl;
      destruct (build_rows cells hs 0 body t) as [types data0] eqn:Eb;
      intros E; injection E as <- <-; exists body, hs, cells, types
  end.
  rewrite length_map in Hl. by repeat split.
Qed.

(** X12: for headers with distinct keys, none of them [id], an array
    index (which [Object.keys] would list first) or [__proto__] (which
    creates no property), every record of a CSV parse has exactly the
    properties [id] and the column keys, in this order, whatever the number of fields on its line: fields past the
    last header are dropped, and a column past the end of the line holds the
    empty string. *)
Theorem csv_record_keys (text : string) (cols : list column) (rows : list obj) :
  csv_parse text = Some (cols, rows) -> NoDup ("id" :: map key cols) ->
  Forall (fun k => array_index k = None /\ k <> "__proto__") (map key cols) ->
  forall j o, rows !! j = Some o ->
    map fst o = "id" :: map key cols /\
    exists line, csv_lines text !! S j = Some line /\
      forall i c, cols !! i = Some c -> length (split_fields line) <= i ->
        obj_get (key c) o = VStr EmptyString.
Proof.
  intros Hp Hnd Hf j o Ho.
  destruct (csv_parse_inv _ _ _ Hp) as (hd & body & types & Hl & Eb & -> & Hlen).
  set (hs := split_fields hd) in *.
  rewrite map_key_columns in Hnd, Hf |- * by done.
  assert (Ho' : (build_rows csv_cell hs 0 body (map (fun _ => TString) hs)).2 !! j = Some o)
    by (by rewrite Eb).
  destruct (build_rows_row csv_cell hs 0 body _ j o Ho') as (line & types' & Hline & ->).
  split.
  - rewrite fill_row_keys; [done|exact Hf|exact Hnd].
  - exists line. split; [by rewrite Hl|].
    intros i c Hc Hi. rewrite lookup_zip_with in Hc.
    destruct (hs !! i) as [h|] eqn:Eh; simpl in Hc; [|done].
    destruct (types !! i) as [t|]; simpl in Hc; [|done]. injection Hc as <-. simpl.
    apply NoDup_cons in Hnd as [_ Hnd].
    assert (Hpr : header_key h <> "__proto__").
    { assert (Hin : In (header_key h) (map header_key hs))
        by (apply in_map, list_elem_of_In; exact (list_elem_of_lookup_2 _ _ _ Eh)).
      exact (proj2 (proj1 (List.Forall_forall _ _) Hf _ Hin)). }
    rewrite (fill_row_get hs 0 (csv_cell line) types' _ i h Hnd Eh Hpr). simpl.
    unfold csv_cell. rewrite nth_overflow by done. reflexivity.
Qed.

Lemma csv_record_keys_witness :
  csv_parse c1_input = Some ([header_column "Name" TString; header_column "Amount" TNumber], c1_records) /\
  NoDup ["id"; "name"; "amount"] /\
  Forall (fun k => array_index k = None /\ k <> "__proto__") ["name"; "amount"] /\
  map fst (nth 1 c1_records []) = ["id"; "name"; "amount"].
Proof.
  assert (Hp : csv_parse c1_input =
               Some ([header_column "Name" TString; header_column "Amount" TNumber], c1_records))
    by (vm_compute; reflexivity).
  assert (Hnd : NoDup ["id"; "name"; "amount"]) by (repeat constructor; rewrite list_elem_of_In; simpl; intuition discriminate).
  assert (Hf : Forall (fun k => array_index k = None /\ k <> "__proto__") ["name"; "amount"]).
  { repeat constructor; intros H; discriminate H. }
  split; [exact Hp|]. split; [exact Hnd|]. split; [exact Hf|].
  exact (proj1 (csv_record_keys _ _ _ Hp Hnd Hf 1 (nth 1 c1_records []) eq_refl)).
Defined.

(** X13: when no column's key is [id], the [id] of the record built from
    data row [j] (counted from 0) is the number [j + 1], in both the CSV
    and the spreadsheet branch. *)
Theorem record_id_is_position :
  (forall text cols rows j o, csv_parse text = Some (cols, rows) -> "id" ∉ map key cols ->
     rows !! j = Some o -> obj_get "id" o = id_value j) /\
  (forall placeholder json cols rows j o, excel_parse placeholder json = Some (cols, rows) ->
     "id" ∉ map key cols -> rows !! j = Some o -> obj_get "id" o = id_value j).
Proof.
  split.
  - intros text cols rows j o Hp Hid Ho.
    destruct (csv_parse_inv _ _ _ Hp) as (hd & body & types & _ & Eb & -> & Hlen).
    rewrite map_key_columns in Hid by done.
    apply (build_rows_id csv_cell (split_fields hd) 0 body (map (fun _ => TString) (split_fields hd)));
      [done|by rewrite Eb].
  - intros placeholder json cols rows j o Hp Hid Ho.
    destruct (excel_parse_inv _ _ _ _ Hp) as (body & hs & cells & types & Eb & -> & Hlen).
    rewrite map_key_columns in Hid by done.
    apply (build_rows_id cells hs 0 body (map (fun _ => TString) hs)); [done|by rewrite Eb].
Qed.

(** The regular expression [/^\d+\.\d{2}$/] of the currency branch. *)
Lemma span_digits_split (s : string) (ds : list nat) (r : string) :
  span_digits s = (ds, r) ->
  exists p, s = (p ++ r) /\ length ds = String.length p /\
    Forall (fun c => is_digit c = true) (list_ascii_of_string p).
Proof.
  revert ds r; induction s as [|c s IH]; intros ds r; simpl.
  - intros E. injection E as <- <-. by exists EmptyString.
  - destruct (is_digit c) eqn:Ec.
    + destruct (span_digits s) as [ds' rest] eqn:Es. intros E. injection E as <- <-.
      destruct (IH ds' rest eq_refl) as (p & -> & Hl & Hd).
      exists (String c p). simpl. split; [done|]. split; [by rewrite Hl|]. by constructor.
    + intros E. injection E as <- <-. by exists EmptyString.
Qed.

Lemma is_ws_small (c : ascii) : is_ws c = true -> (nat_of_ascii c <= 32)%nat.
Proof.
  unfold is_ws. generalize (nat_of_ascii c) as n. intros n H.
  do 33 (destruct n as [|n]; [lia|]). discriminate H.
Qed.

Lemma digit_not_ws (c : ascii) : is_digit c = true -> is_ws c = false.
Proof.
  unfold is_digit. intros H. apply andb_true_iff in H as [H _]. apply Nat.leb_le in H.
  destruct (is_ws c) eqn:E; [|done]. apply is_ws_small in E. lia.
Qed.

Lemma rtrim_last (s : string) (d : ascii) :
  is_ws d = false -> rtrim (s ++ String d EmptyString) = (s ++ String d EmptyString).
Proof.
  intros Hd. unfold rtrim. rewrite list_ascii_of_string_app. simpl.
  rewrite rev_app_distr. simpl. rewrite Hd. simpl. rewrite rev_involutive.
  change [d] with (list_ascii_of_string (String d EmptyString)).
  by rewrite <- list_ascii_of_string_app, string_of_list_ascii_of_string.
Qed.

Lemma decimal_prefix_digit (c : ascii) (r : string) :
  is_digit c = true -> decimal_prefix (String c r) = unsigned_prefix (String c r).
Proof.
  intros Hd. destruct c as [[] [] [] [] [] [] [] []]; try reflexivity; vm_compute in Hd; discriminate.
Qed.

(** A cell matching [/^\d+\.\d{2}$/] is read as a number: [Number] does
    not give NaN and [parseFloat] gives a finite value. *)
Lemma money_is_number (v : string) :
  match_money v = true ->
  is_nan (to_number v) = false /\ (exists q, parse_float v = Fin q) /\ v <> EmptyString.
Proof.
  unfold match_money. destruct (span_digits v) as [a r1] eqn:E1.
  destruct r1 as [|x t]; [by rewrite andb_false_r|].
  cbn [starts_with_char tail_str].
  destruct (Ascii.eqb_spec x ".") as [->|]; [|by rewrite andb_false_r].
  destruct (span_digits t) as [c r2] eqn:E2.
  intros H. apply andb_true_iff in H as [H H3]. apply andb_true_iff in H as [H _].
  apply andb_true_iff in H3 as [Hc Hr2]. apply Nat.leb_le in H. apply Nat.eqb_eq in Hc.
  apply String.eqb_eq in Hr2. subst r2.
  destruct (span_digits_split _ _ _ E1) as (p1 & Hv & Hl1 & Hd1).
  destruct (span_digits_split _ _ _ E2) as (p2 & Ht & Hl2 & Hd2).
  destruct p1 as [|c0 p1]; [simpl in Hl1; lia|].
  destruct p2 as [|d1 [|d2 [|d3 p2]]]; simpl in Hl2; try lia.
  rewrite Ht in Hv. simpl in Hv.
  apply Forall_cons_iff in Hd1 as [Hc0 _].
  apply Forall_cons_iff in Hd2 as [_ Hd2]. apply Forall_cons_iff in Hd2 as [Hd2 _].
  set (q := dec_value a c (fst (exponent_prefix EmptyString))).
  assert (Hu : decimal_prefix v = Some (Fin q, EmptyString)).
  { rewrite Hv, decimal_prefix_digit by done. rewrite <- Hv.
    unfold unsigned_prefix.
    assert (Hi : String.prefix "Infinity" v = false).
    { rewrite Hv. cbn [String.prefix]. destruct (ascii_dec "I" c0) as [<-|]; [vm_compute in Hc0; discriminate|done]. }
    rewrite Hi, E1. cbn iota. rewrite E2.
    destruct a as [|a0 a]; [simpl in H; lia|]. reflexivity. }
  assert (Hl : ltrim v = v) by (rewrite Hv; simpl; by rewrite (digit_not_ws c0)).
  assert (Htr : trim v = v).
  { unfold trim. rewrite Hl.
    replace v with ((String c0 p1 ++ String "." (String d1 EmptyString)) ++ String d2 EmptyString)
      by (rewrite str_app_assoc; simpl; by rewrite Hv).
    by apply rtrim_last, digit_not_ws. }
  assert (Hne : v <> EmptyString) by (by rewrite Hv).
  split; [|split; [exists q|done]].
  - unfold to_number. rewrite Htr. destruct (String.eqb_spec v EmptyString); [done|].
    destruct (non_decimal_literal v); [done|]. by rewrite Hu.
  - unfold parse_float. by rewrite Hl, Hu.
Qed.

(** X14: the test [/^\d+\.\d{2}$/] of the currency branch never decides:
    a cell it matches is already detected as a number by the first branch,
    so a cell is detected as currency only when it starts with a dollar
    sign. *)
Theorem currency_needs_dollar (v : string) :
  (match_money v = true -> fst (detect v) = Some TNumber) /\
  (fst (detect v) = Some TCurrency -> starts_with_char "$" v = true).
Proof.
  assert (Hm : match_money v = true ->
               negb (is_nan (to_number v)) && negb (is_nan (parse_float v)) && negb (v =? EmptyString) = true).
  { intros H. destruct (money_is_number v H) as (H1 & [q Hq] & Hne).
    rewrite H1, Hq. simpl. by rewrite (proj2 (String.eqb_neq _ _) Hne). }
  split.
  - intros H. unfold detect. by rewrite (Hm H).
  - unfold detect.
    destruct (negb (is_nan (to_number v)) && _ && _) eqn:En; [done|].
    destruct (match_iso_date v || match_us_date v); [done|].
    destruct (starts_with_char "$" v) eqn:Ed; [done|].
    destruct (match_money v) eqn:Em; [|done]. simpl.
    pose proof (Hm eq_refl) as C. discriminate C.
Qed.

Lemma split_on_nonempty (sep : ascii) (s : string) : split_on sep s <> [].
Proof.
  induction s as [|c s IH]; simpl; [done|].
  destruct (Ascii.eqb c sep); [done|]. by destruct (split_on sep s).
Qed.

Lemma split_on_app_sep (sep : ascii) (a b : string) :
  split_on sep (a ++ String sep b) = (split_on sep a ++ split_on sep b)%list.
Proof.
  induction a as [|c a IH]; simpl.
  - by rewrite Ascii.eqb_refl.
  - destruct (Ascii.eqb c sep); [by rewrite IH|].
    rewrite IH. pose proof (split_on_nonempty sep a) as Hne.
    by destruct (split_on sep a).
Qed.

Lemma split_on_no_sep (sep : ascii) (s : string) :
  ~ In sep (list_ascii_of_string s) -> split_on sep s = [s].
Proof.
  induction s as [|c s IH]; intros Hs; simpl; [done|].
  destruct (Ascii.eqb_spec c sep) as [->|]; [exfalso; apply Hs; by left|].
  rewrite IH; [done|]. intros H. apply Hs. by right.
Qed.

Lemma last_app_ne {A : Type} (l1 l2 : list A) (d : A) :
  l2 <> [] -> List.last (l1 ++ l2) d = List.last l2 d.
Proof.
  intros Hne. induction l1 as [|x l1 IH]; [done|].
  rewrite <- app_comm_cons. simpl. rewrite IH.
  destruct l1; simpl; [by destruct l2|]. by destruct (l1 ++ l2)%list eqn:E; [apply app_eq_nil in E as [_ ?]|].
Qed.

(** X15: the file kind depends only on the text after the last dot of the
    name, in any case; a name without a dot is its own extension, so a file
    named [csv] or [CSV] is read as CSV text. *)
Theorem file_kind_last_extension (pre ext : string) :
  ~ In "."%char (list_ascii_of_string ext) ->
  file_kind_of (pre ++ String "." ext) = file_kind_of ext /\
  (file_kind_of ext = CsvFile <-> to_lower ext = "csv").
Proof.
  intros Hext. unfold file_kind_of.
  rewrite split_on_app_sep, last_app_ne by apply split_on_nonempty.
  split; [done|].
  rewrite split_on_no_sep by done. simpl.
  destruct (String.eqb_spec (to_lower ext) "csv"); [done|].
  split; [|done]. by destruct (_ || _).
Qed.

Lemma file_kind_last_extension_witness :
  ~ In "."%char (list_ascii_of_string "CSV") /\ file_kind_of ("report.2024" ++ String "." "CSV") = CsvFile.
Proof.
  assert (H : ~ In "."%char (list_ascii_of_string "CSV")) by (simpl; intuition discriminate).
  split; [exact H|].
  rewrite (proj1 (file_kind_last_extension "report.2024" "CSV" H)). reflexivity.
Defined.

Lemma stable_sort_all_zero {A : Type} (cmp : A -> A -> Z) (l : list A) :
  (forall a b, In a l -> In b l -> cmp a b = 0%Z) -> stable_sort cmp l = l.
Proof.
  intros H0. unfold stable_sort.
  assert (Hg : forall s acc, (forall a b, In a (acc ++ s)%list -> In b (acc ++ s)%list -> cmp a b = 0%Z) ->
                 fold_left (fun acc x => insert_by cmp x acc) s acc = (acc ++ s)%list).
  { induction s as [|x s IH]; intros acc H; simpl; [by rewrite app_nil_r|].
    assert (Hins : insert_by cmp x acc = (acc ++ [x])%list).
    { assert (Hx : forall y, In y acc -> cmp x y = 0%Z).
      { intros y Hy. apply H; apply in_or_app; [by right; left|by left]. }
      clear H IH. induction acc as [|y acc IHa]; simpl; [done|].
      rewrite (Hx y (or_introl eq_refl)). simpl. rewrite IHa; [done|].
      intros z Hz. apply Hx. by right. }
    rewrite Hins, IH; [by rewrite <- List.app_assoc|].
    rewrite <- List.app_assoc. exact H. }
  exact (Hg l [] H0).
Qed.

(** X16: sorting by a column whose values are all strictly equal (for
    instance a key that no record has, or a column holding one same string)
    keeps the records in their order, in both directions. *)
Theorem sort_equal_keys_keeps_order (k : string) (dir : direction) (l out : list obj) :
  (forall a b, In a l -> In b l -> strict_eq (obj_get k a) (obj_get k b) = true) ->
  sorted_data {| sort_key := Some k; sort_dir := dir |} l out -> out = l.
Proof.
  intros Heq Hs. unfold sorted_data in Hs. simpl in Hs.
  destruct (k =? EmptyString); [done|].
  assert (H0 : forall a b, In a l -> In b l -> sort_compare k dir a b = 0%Z).
  { intros a b Ha Hb. apply Z.eqb_eq. rewrite sort_compare_zero. by apply Heq. }
  destruct Hs as [_ Hs]. rewrite Hs.
  - by apply stable_sort_all_zero.
  - split.
    + intros a b Ha Hb. apply list_elem_of_In in Ha, Hb. rewrite !H0; done.
    + intros a b c Ha Hb Hc _ _. apply list_elem_of_In in Ha, Hc. rewrite H0; [lia|done|done].
Qed.

Lemma sort_equal_keys_keeps_order_witness :
  sorted_data {| sort_key := Some "zip"; sort_dir := Desc |} c1_records c1_records /\
  (forall a b, In a c1_records -> In b c1_records -> strict_eq (obj_get "zip" a) (obj_get "zip" b) = true) /\
  c1_records = c1_records.
Proof.
  assert (Heq : forall a b, In a c1_records -> In b c1_records ->
                  strict_eq (obj_get "zip" a) (obj_get "zip" b) = true).
  { intros a b Ha Hb. simpl in Ha, Hb.
    destruct Ha as [<-|[<-|[]]]; destruct Hb as [<-|[<-|[]]]; reflexivity. }
  assert (Hs : sorted_data {| sort_key := Some "zip"; sort_dir := Desc |} c1_records c1_records).
  { unfold sorted_data. simpl. split; [reflexivity|]. intros _. vm_compute. reflexivity. }
  split; [exact Hs|]. split; [exact Heq|].
  exact (sort_equal_keys_keeps_order "zip" Desc c1_records c1_records Heq Hs).
Defined.

(** Exported text keeps the line structure: no newline in a value. *)

Lemma no_nl_app (a b : string) :
  ~ In newline (list_ascii_of_string a) -> ~ In newline (list_ascii_of_string b) ->
  ~ In newline (list_ascii_of_string (a ++ b)).
Proof. rewrite list_ascii_of_string_app, in_app_iff. tauto. Qed.

Lemma no_nl_of_bool (s : string) :
  forallb (fun c => negb (Ascii.eqb c newline)) (list_ascii_of_string s) = true ->
  ~ In newline (list_ascii_of_string s).
Proof.
  intros H Hin. rewrite forallb_forall in H. specialize (H _ Hin).
  by rewrite Ascii.eqb_refl in H.
Qed.

Lemma digit_char_not_nl (d : Z) : (d < 10)%Z -> digit_char d <> newline.
Proof.
  intros Hd. unfold digit_char. assert (Hk : (Z.to_nat d <= 9)%nat) by lia.
  remember (Z.to_nat d) as k eqn:Ek. clear Ek Hd.
  do 10 (destruct k as [|k]; [intros H; vm_compute in H; discriminate H|]). lia.
Qed.

Lemma z_digits_aux_no_nl (fuel : nat) (n : Z) (acc : string) :
  ~ In newline (list_ascii_of_string acc) ->
  ~ In newline (list_ascii_of_string (z_digits_aux fuel n acc)).
Proof.
  revert n acc; induction fuel as [|f IH]; intros n acc Hacc; simpl; [done|].
  destruct (Z.ltb_spec n 10).
  - simpl. intros [E|Hin]; [|done]. by apply (digit_char_not_nl n).
  - apply IH. simpl. intros [E|Hin]; [|done].
    apply (digit_char_not_nl (n mod 10)); [|done].
    pose proof (Z.mod_pos_bound n 10). lia.
Qed.

Lemma substring_sub (n m : nat) (s : string) (x : ascii) :
  In x (list_ascii_of_string (substring n m s)) -> In x (list_ascii_of_string s).
Proof.
  revert n m; induction s as [|c s IH]; intros n m; destruct n, m; simpl; try done.
  - intros [->|H]; [by left|]. right. exact (IH 0 m H).
  - intros H. right. exact (IH n 0 H).
  - intros H. right. exact (IH n (S m) H).
Qed.

Lemma zeros_no_nl (n : nat) : ~ In newline (list_ascii_of_string (zeros n)).
Proof.
  induction n as [|n IH]; simpl; [by intros []|]. intros [E|H]; [|done].
  vm_compute in E. discriminate E.
Qed.

Ltac no_nl_tac :=
  repeat match goal with
  | |- ~ In newline (list_ascii_of_string (_ ++ _)) => apply no_nl_app
  | |- ~ In newline (list_ascii_of_string (zeros _)) => apply zeros_no_nl
  | |- ~ In newline (list_ascii_of_string (z_digits _)) => apply z_digits_aux_no_nl
  | |- ~ In newline (list_ascii_of_string (substring _ _ ?s)) =>
      let H := fresh in intros H; apply substring_sub in H; revert H
  | |- ~ In newline (list_ascii_of_string (exp_text _)) =>
      unfold exp_text; destruct (0 <=? _)%Z
  | |- ~ In newline (list_ascii_of_string (String _ _)) => apply no_nl_of_bool; reflexivity
  | |- ~ In newline (list_ascii_of_string EmptyString) => apply no_nl_of_bool; reflexivity
  end.

Lemma show_pos_no_nl (q : Q) : ~ In newline (list_ascii_of_string (show_pos q)).
Proof.
  unfold show_pos. cbv zeta.
  destruct (strip_zeros _ _ _) as [s k'].
  assert (Hd : ~ In newline (list_ascii_of_string (z_digits s))) by (apply z_digits_aux_no_nl; by intros []).
  repeat match goal with |- context [if ?b then _ else _] => destruct b end;
    no_nl_tac; try exact Hd; intros H; exact (Hd H).
Qed.

Lemma show_num_no_nl (x : jsnum) : ~ In newline (list_ascii_of_string (show_num x)).
Proof.
  destruct x as [q| | |]; unfold show_num; try (apply no_nl_of_bool; reflexivity).
  cbv zeta. destruct (Qnum (Qred q) =? 0)%Z; [apply no_nl_of_bool; reflexivity|].
  destruct (Qnum (Qred q) <? 0)%Z; [|apply show_pos_no_nl].
  apply no_nl_app; [apply no_nl_of_bool; reflexivity|apply show_pos_no_nl].
Qed.

Lemma double_quotes_sub (s : string) (x : ascii) :
  In x (list_ascii_of_string (double_quotes s)) -> x = dquote \/ In x (list_ascii_of_string s).
Proof.
  induction s as [|c s IH]; simpl; [done|].
  destruct (Ascii.eqb_spec c dquote) as [->|]; simpl.
  - intros [<-|[<-|H]]; [by left|by left|]. destruct (IH H); [by left|by right; right].
  - intros [<-|H]; [by right; left|]. destruct (IH H); [by left|by right; right].
Qed.

Lemma export_value_no_nl (c : column) (item : obj) :
  (forall k s, In (k, VStr s) item -> ~ In newline (list_ascii_of_string s)) ->
  ~ In newline (list_ascii_of_string (export_value c item)).
Proof.
  intros Hs. unfold export_value.
  destruct (obj_get (key c) item) as [n|s| |m] eqn:E; destruct (type c);
    try apply show_num_no_nl; try (apply no_nl_of_bool; reflexivity);
    try (destruct m; apply no_nl_of_bool; reflexivity).
  all: assert (Hn : ~ In newline (list_ascii_of_string s))
         by (apply (Hs (key c)), obj_get_In; exact E).
  all: destruct (includes s "," || includes s (String dquote EmptyString)); [|exact Hn].
  all: unfold quote_field; simpl; intros [E'|H]; [vm_compute in E'; discriminate E'|].
  all: rewrite list_ascii_of_string_app, in_app_iff in H; destruct H as [H|[E'|[]]];
         [destruct (double_quotes_sub _ _ H) as [E'|H']; [vm_compute in E'; discriminate E'|exact (Hn H')]
         |vm_compute in E'; discriminate E'].
Qed.

Lemma join_comma_no_nl (l : list string) :
  Forall (fun s => ~ In newline (list_ascii_of_string s)) l ->
  ~ In newline (list_ascii_of_string (join "," l)).
Proof.
  induction l as [|x [|y l] IH]; intros Hl; [by intros []|by inversion Hl|].
  inversion Hl as [|? ? Hx Hr]; subst.
  change (join "," (x :: y :: l)) with (x ++ "," ++ join "," (y :: l)).
  apply no_nl_app; [done|]. apply no_nl_app; [apply no_nl_of_bool; reflexivity|]. by apply IH.
Qed.

Lemma split_on_join_lines (l : list string) :
  l <> [] -> Forall (fun s => ~ In newline (list_ascii_of_string s)) l ->
  split_on newline (join (String newline EmptyString) l) = l.
Proof.
  induction l as [|x [|y l] IH]; intros Hne Hl; [done| |].
  - inversion Hl; subst. simpl. by apply split_on_no_sep.
  - inversion Hl as [|? ? Hx Hr]; subst.
    change (join (String newline EmptyString) (x :: y :: l))
      with (x ++ String newline (join (String newline EmptyString) (y :: l))).
    rewrite split_on_app_sep, split_on_no_sep by done. rewrite IH by done. done.
Qed.

(** X17: exporting records of a table loaded from CSV text gives, split at
    its newlines, exactly the header line of the visible labels followed by
    one line per exported record, in order: no value breaks a line. *)
Theorem export_csv_lines (text : string) (cols : list column) (rows : list obj)
    (vis : list (string * bool)) (sd : list obj) :
  csv_parse text = Some (cols, rows) ->
  (forall o, In o sd -> In o rows) ->
  split_on newline (export_csv cols vis sd) =
  join "," (map label (visible_columns_array cols vis)) ::
  map (fun item => join "," (map (fun c => export_value c item) (visible_columns_array cols vis))) sd.
Proof.
  intros Hp Hsd. destruct (csv_parse_strings _ _ _ Hp) as [Hcols Hrows].
  unfold export_csv. fold (visible_columns_array cols vis).
  apply split_on_join_lines; [done|]. constructor.
  - apply join_comma_no_nl. apply Forall_forall. intros s (c & <- & Hc)%list_elem_of_In%in_map_iff.
    apply Hcols. unfold visible_columns_array in Hc. by apply filter_In in Hc as [Hc _].
  - apply Forall_forall. intros s (o & <- & Ho)%list_elem_of_In%in_map_iff.
    apply join_comma_no_nl. apply Forall_forall. intros s (c & <- & _)%list_elem_of_In%in_map_iff.
    apply export_value_no_nl. intros k s Hks. exact (proj2 (proj2 (Hrows o k s (Hsd o Ho) Hks))).
Qed.

Lemma export_csv_lines_witness :
  csv_parse c1_input = Some ([header_column "Name" TString; header_column "Amount" TNumber], c1_records) /\
  split_on newline (export_csv [header_column "Name" TString; header_column "Amount" TNumber]
                      (all_visible [header_column "Name" TString; header_column "Amount" TNumber]) c1_records) =
  ["Name,Amount"; "Alice,10.5"; "Bob,20"].
Proof.
  assert (Hp : csv_parse c1_input =
               Some ([header_column "Name" TString; header_column "Amount" TNumber], c1_records))
    by (vm_compute; reflexivity).
  split; [exact Hp|].
  rewrite (export_csv_lines c1_input _ c1_records _ c1_records Hp (fun o Ho => Ho)).
  vm_compute. reflexivity.
Defined.
